(** * The Imagen request handler ([main.go]): model and properties

    The program is one AWS Lambda handler.  It decodes a JSON request,
    asks the GenAI client for images, stores every image in S3 and answers
    with the list of public URLs.  The handler's calls into the outside
    world (the GenAI client, the S3 client, the clock, the logger) are
    kept as the nodes of a program tree; an interpreter runs the tree
    against an arbitrary environment and records every call. *)

From Stdlib Require Import ZArith Ascii String List Lia.
From stdpp Require Import base decidable option list strings pretty gmap.

Local Open Scope string_scope.
Local Open Scope list_scope.
Local Open Scope Z_scope.

(** ** Go values *)

(** A non-nil Go [error] is represented by the text of its [Error()]
    method, which is all that [%v] prints; [option error] adds [nil]. *)
Definition error : Type := string.

(** A Go slice of strings: [None] is the nil slice of [var urls []string],
    [Some l] a non-nil slice.  [json.Marshal] tells the two apart. *)
Definition Slice (A : Type) : Type := option (list A).

Definition append {A : Type} (s : Slice A) (x : A) : Slice A :=
  match s with
  | None => Some [x]
  | Some l => Some (l ++ [x])
  end.

Definition elems {A : Type} (s : Slice A) : list A :=
  match s with
  | None => []
  | Some l => l
  end.

(** [net/http] status codes used by the handler. *)
Definition StatusOK : Z := 200.
Definition StatusBadRequest : Z := 400.
Definition StatusInternalServerError : Z := 500.

(** ** Request, response and client types *)

(** [type requestPayload struct] ([NumberOfImages] is an [int32]; the
    handler only compares it with zero, so no arithmetic can wrap). *)
Record requestPayload : Type := mkRequestPayload {
  NumberOfImages : Z;
  AspectRatio : string;
  PersonGeneration : string;
  Prompt : string
}.

Definition set_NumberOfImages (n : Z) (v : requestPayload) : requestPayload :=
  {| NumberOfImages := n; AspectRatio := AspectRatio v;
     PersonGeneration := PersonGeneration v; Prompt := Prompt v |}.

Definition set_AspectRatio (a : string) (v : requestPayload) : requestPayload :=
  {| NumberOfImages := NumberOfImages v; AspectRatio := a;
     PersonGeneration := PersonGeneration v; Prompt := Prompt v |}.

(** The zero value of [var in requestPayload]. *)
Definition zeroRequestPayload : requestPayload :=
  {| NumberOfImages := 0; AspectRatio := ""; PersonGeneration := ""; Prompt := "" |}.

(** [type responsePayload struct]. *)
Record responsePayload : Type := mkResponsePayload {
  ImageURLs : Slice string
}.

(** [events.APIGatewayProxyRequest]: the handler reads [Body] only. *)
Record APIGatewayProxyRequest : Type := mkRequest {
  req_Body : string
}.

(** [events.APIGatewayProxyResponse]: the three fields the handler sets
    (the others keep their zero values). *)
Record APIGatewayProxyResponse : Type := mkResponse {
  StatusCode : Z;
  Headers : gmap string string;
  Body : string
}.

(** [genai.GenerateImagesConfig]: the fields the handler sets. *)
Record GenerateImagesConfig : Type := mkGenCfg {
  cfg_NumberOfImages : Z;
  cfg_AspectRatio : string;
  cfg_PersonGeneration : string
}.

Definition set_cfg_PersonGeneration (p : string) (c : GenerateImagesConfig)
    : GenerateImagesConfig :=
  {| cfg_NumberOfImages := cfg_NumberOfImages c;
     cfg_AspectRatio := cfg_AspectRatio c;
     cfg_PersonGeneration := p |}.

(** Modelled from the spec: the [genai] result types are declared in the
    client library, not in this repository.  The spec (4.2, 3) describes
    the result of a successful call as an ordered sequence of zero or more
    images, each one a raw byte buffer; the field path below is the one
    the handler reads, [genResp.GeneratedImages[idx].Image.ImageBytes]. *)
Record genai_Image : Type := mkImage {
  ImageBytes : list Byte.byte
}.

Record GeneratedImage : Type := mkGeneratedImage {
  Image : genai_Image
}.

Record GenerateImagesResponse : Type := mkGenResp {
  GeneratedImages : list GeneratedImage
}.

(** [s3.PutObjectInput]: the fields the handler sets. *)
Record PutObjectInput : Type := mkPutObjectInput {
  put_Bucket : string;
  put_Key : string;
  put_Body : list Byte.byte;
  put_ContentType : string
}.

(** A reading of the clock, by its civil fields in the local zone (what
    [Time.Format] prints from). *)
Record Time : Type := mkTime {
  Year : Z;
  Month : Z;
  Day : Z;
  Hour : Z;
  Minute : Z;
  Second : Z
}.

(** ** The Go library functions the handler calls *)

(** [%d] of a non-negative [int]: its decimal digits. *)
Definition itoa (n : nat) : string := pretty n.

(** Package [time]. *)
Module time.

Fixpoint zeros (n : nat) : string :=
  match n with
  | O => ""
  | S n' => String "0" (zeros n')
  end.

(** [appendInt(b, x, width)]: a minus sign for a negative [x], then the
    decimal digits of [|x|], zero-padded on the left to [width]. *)
Definition appendInt (x : Z) (width : nat) : string :=
  let digits := pretty (Z.abs_N x) in
  (if x <? 0 then "-" else "")
    +:+ zeros (width - String.length digits) +:+ digits.

(** [t.Format("20060102T150405")].  The layout splits into the chunks
    [2006] (year, four digits), [01] (month, two digits), [02] (day of
    the month, two digits), the literal [T], [15] (hour, 00..23), [04]
    (minute, two digits) and [05] (second, two digits). *)
Definition Format_20060102T150405 (t : Time) : string :=
  appendInt (Year t) 4 +:+ appendInt (Month t) 2 +:+ appendInt (Day t) 2
    +:+ "T"
    +:+ appendInt (Hour t) 2 +:+ appendInt (Minute t) 2 +:+ appendInt (Second t) 2.

(** Strings of exactly [n] decimal digits. *)
Definition is_digit (c : ascii) : bool :=
  (48 <=? nat_of_ascii c)%nat && (nat_of_ascii c <=? 57)%nat.

Definition digits (n : nat) (s : string) : bool :=
  (String.length s =? n)%nat && forallb is_digit (list_ascii_of_string s).

(** The civil readings a clock of years 0..9999 can give. *)
Definition civil (t : Time) : Prop :=
  0 <= Year t <= 9999 /\ 1 <= Month t <= 12 /\ 1 <= Day t <= 31 /\
  0 <= Hour t <= 23 /\ 0 <= Minute t <= 59 /\ 0 <= Second t <= 59.

End time.

(** Package [path]: [Clean] and [Join] work on the bytes of the string. *)
Module path.

Definition slash : ascii := "/"%char.
Definition dot : ascii := "."%char.

Definition is_slash (c : ascii) : bool := Ascii.eqb c slash.
Definition is_dot (c : ascii) : bool := Ascii.eqb c dot.

(** [r+k == n || path[r+k] == '/'] on the bytes from [r+k] on. *)
Definition ends_element (s : list ascii) : bool :=
  match s with
  | [] => true
  | c :: _ => is_slash c
  end.

(** The copy loop [for ; r < n && path[r] != '/'; r++ { out.append(path[r]) }]:
    the bytes of the element are pushed on [out], the rest is returned. *)
Fixpoint copy_element (s out : list ascii) : list ascii * list ascii :=
  match s with
  | [] => ([], out)
  | c :: s' => if is_slash c then (s, out) else copy_element s' (c :: out)
  end.

(** The [lazybuf] is represented by its first [w] bytes, last byte first
    ([w] is the length of the list).  Backtracking over a [..] element:
    [out.w--; for out.w > dotdot && out.index(out.w) != '/' { out.w-- }];
    the byte at index [out.w] is the one the decrement has just dropped. *)
Fixpoint backtrack (out : list ascii) (dotdot : nat) : list ascii :=
  match out with
  | [] => []
  | c :: out' =>
      if (dotdot <? length out')%nat && negb (is_slash c)
      then backtrack out' dotdot
      else out'
  end.

(** The loop [for r < n] of [Clean]; [s] holds the bytes [path[r:]].
    Every turn reads at least one byte, so [length s] turns suffice. *)
Fixpoint Clean_loop (turns : nat) (rooted : bool)
    (s out : list ascii) (dotdot : nat) : list ascii :=
  match turns, s with
  | O, _ | _, [] => out
  | S turns', c :: s1 =>
      if is_slash c then
        (* empty path element *)
        Clean_loop turns' rooted s1 out dotdot
      else if is_dot c && ends_element s1 then
        (* . element *)
        Clean_loop turns' rooted s1 out dotdot
      else if is_dot c && (match s1 with
                           | c1 :: s2 => is_dot c1 && ends_element s2
                           | [] => false
                           end) then
        (* .. element: remove to last / *)
        let s2 := tail s1 in
        if (dotdot <? length out)%nat then
          Clean_loop turns' rooted s2 (backtrack out dotdot) dotdot
        else if negb rooted then
          let out1 := if (0 <? length out)%nat then slash :: out else out in
          let out2 := dot :: dot :: out1 in
          Clean_loop turns' rooted s2 out2 (length out2)
        else
          Clean_loop turns' rooted s2 out dotdot
      else
        (* real path element: add slash if needed, copy element *)
        let out1 :=
          if (rooted && negb (length out =? 1)%nat)
             || (negb rooted && negb (length out =? 0)%nat)
          then slash :: out else out in
        let '(rest, out2) := copy_element s out1 in
        Clean_loop turns' rooted rest out2 dotdot
  end.

Definition Clean (path : string) : string :=
  match list_ascii_of_string path with
  | [] => "."
  | (c :: s1) as s =>
      let rooted := is_slash c in
      let out :=
        if rooted then Clean_loop (length s1) rooted s1 [slash] 1
        else Clean_loop (length s) rooted s [] 0 in
      match out with
      | [] => "."
      | _ => string_of_list_ascii (rev out)
      end
  end.

(** [Join(elem...)]: the non-empty elements separated by slashes, then
    cleaned; the empty string when every element is empty. *)
Definition Join (elem : list string) : string :=
  let size := fold_left (fun n e => (n + String.length e)%nat) elem 0%nat in
  if (size =? 0)%nat then ""
  else
    let buf :=
      fold_left
        (fun buf e =>
           if negb (String.length buf =? 0)%nat || negb (String.eqb e "")
           then (if negb (String.length buf =? 0)%nat then buf +:+ "/" else buf) +:+ e
           else buf)
        elem "" in
    Clean buf.

(** A plain name: one path element that [Clean] keeps as it is, that is
    a non-empty string without a slash, other than [.] and [..]. *)
Definition plain (name : string) : bool :=
  negb (String.eqb name "") && negb (String.eqb name ".")
  && negb (String.eqb name "..")
  && forallb (fun c => negb (is_slash c)) (list_ascii_of_string name).

(** The bytes of a plain name, as [Clean]'s loop tests them. *)
Definition plainl (e : list ascii) : Prop :=
  Forall (fun c => is_slash c = false) e
  /\ match e with
     | [] => False
     | c :: e1 =>
         is_dot c = true ->
         match e1 with
         | [] => False
         | c1 :: e2 => is_dot c1 = true -> e2 <> []
         end
     end.

(** The elements after the first, each behind its slash. *)
Definition segments (es : list (list ascii)) : list ascii :=
  flat_map (fun e => slash :: e) es.

(** Strings without a slash. *)
Definition no_slash (s : string) : Prop :=
  forallb (fun c => negb (is_slash c)) (list_ascii_of_string s) = true.

End path.

(** Package [encoding/json], encoding side.  [json.Marshal] of a
    [responsePayload] writes the single field under its tag [imageUrls]:
    [null] for a nil slice, otherwise the array of the quoted strings.
    [quote] is the encoder's rendering of one Go string as a JSON string
    literal (quotes and escapes included). *)
Module json.

Definition dquote : string := String "034"%char "".

Definition Marshal (quote : string -> string) (v : responsePayload) : string :=
  "{" +:+ dquote +:+ "imageUrls" +:+ dquote +:+ ":"
    +:+ match ImageURLs v with
        | None => "null"
        | Some l => "[" +:+ String.concat "," (map quote l) +:+ "]"
        end
    +:+ "}".

End json.

(** ** Programs over the outside world *)

(** A handler run is a tree: a leaf returns, a node calls the GenAI
    client, the S3 client, the clock or the logger and goes on with the
    answer. *)
Inductive Prog (A : Type) : Type :=
| Ret (a : A)
| GenerateImages (model prompt : string) (config : GenerateImagesConfig)
    (k : GenerateImagesResponse + error -> Prog A)
| PutObject (params : PutObjectInput) (k : option error -> Prog A)
| Now (k : Time -> Prog A)
| Printf (line : string) (k : Prog A).

Arguments Ret {A} a.
Arguments GenerateImages {A} model prompt config k.
Arguments PutObject {A} params k.
Arguments Now {A} k.
Arguments Printf {A} line k.

Fixpoint bind {A B : Type} (p : Prog A) (f : A -> Prog B) : Prog B :=
  match p with
  | Ret a => f a
  | GenerateImages m pr c k => GenerateImages m pr c (fun r => bind (k r) f)
  | PutObject params k => PutObject params (fun r => bind (k r) f)
  | Now k => Now (fun t => bind (k t) f)
  | Printf line k => Printf line (bind k f)
  end.

#[export] Instance Prog_ret : MRet Prog := @Ret.
#[export] Instance Prog_bind : MBind Prog := fun A B f p => bind p f.

(** [genaiClient.Models.GenerateImages(ctx, model, prompt, config)]:
    [inl] is a response with a nil error, [inr] a non-nil error. *)
Definition genaiClient_GenerateImages (model prompt : string)
    (config : GenerateImagesConfig) : Prog (GenerateImagesResponse + error) :=
  GenerateImages model prompt config Ret.

(** [s3Client.PutObject(ctx, params)]: the returned error, if any. *)
Definition s3Client_PutObject (params : PutObjectInput) : Prog (option error) :=
  PutObject params Ret.

Definition time_Now : Prog Time := Now Ret.

Definition log_Printf (line : string) : Prog unit := Printf line (Ret tt).

(** What a run leaves behind: every call with the answer it got. *)
Inductive Event : Type :=
| EvGenerateImages (model prompt : string) (config : GenerateImagesConfig)
    (res : GenerateImagesResponse + error)
| EvPutObject (params : PutObjectInput) (res : option error)
| EvNow (t : Time)
| EvPrintf (line : string).

(** The outside world: a state of any type [W] and the answers of the
    two clients and of the clock, which may depend on it and change it. *)
Record Env (W : Type) : Type := mkEnv {
  genai_GenerateImages :
    string -> string -> GenerateImagesConfig -> W -> (GenerateImagesResponse + error) * W;
  s3_PutObject : PutObjectInput -> W -> option error * W;
  clock_Now : W -> Time * W
}.

Arguments genai_GenerateImages {W} e _ _ _ _.
Arguments s3_PutObject {W} e _ _.
Arguments clock_Now {W} e _.

(** Running a program from a state: result, final state, calls in order. *)
Fixpoint run {W A : Type} (env : Env W) (p : Prog A) (w : W) : A * W * list Event :=
  match p with
  | Ret a => (a, w, [])
  | GenerateImages m pr c k =>
      let '(r, w1) := genai_GenerateImages env m pr c w in
      let '(a, w2, tr) := run env (k r) w1 in
      (a, w2, EvGenerateImages m pr c r :: tr)
  | PutObject params k =>
      let '(r, w1) := s3_PutObject env params w in
      let '(a, w2, tr) := run env (k r) w1 in
      (a, w2, EvPutObject params r :: tr)
  | Now k =>
      let '(t, w1) := clock_Now env w in
      let '(a, w2, tr) := run env (k t) w1 in
      (a, w2, EvNow t :: tr)
  | Printf line k =>
      let '(a, w2, tr) := run env k w in
      (a, w2, EvPrintf line :: tr)
  end.

(** The calls of one kind in a trace, in order. *)
Definition generations (tr : list Event)
    : list (string * string * GenerateImagesConfig * (GenerateImagesResponse + error)) :=
  omap (fun ev => match ev with
                  | EvGenerateImages m pr c r => Some (m, pr, c, r)
                  | _ => None
                  end) tr.

Definition uploads (tr : list Event) : list (PutObjectInput * option error) :=
  omap (fun ev => match ev with
                  | EvPutObject params r => Some (params, r)
                  | _ => None
                  end) tr.

Definition clock (tr : list Event) : list Time :=
  omap (fun ev => match ev with
                  | EvNow t => Some t
                  | _ => None
                  end) tr.

(** ** The handler *)

Section Handler.

(** [json.Unmarshal([]byte(body), &in)]: the decoder of the standard
    library, from the body and the value [in] holds before the call to
    the value it holds after and the returned error.  Fields the body
    does not mention keep the value they had. *)
Variable json_Unmarshal : string -> requestPayload -> requestPayload * option error.

(** The string encoder of [json.Marshal]. *)
Variable json_quote : string -> string.

(** The package variables [init] fills from the process environment. *)
Variables bucketName folderPrefix region : string.

Definition Response : Type := APIGatewayProxyResponse * option error.

Definition clientError (status : Z) (msg : string) : Response :=
  ({| StatusCode := status;
      Headers := {[ "Content-Type" := "text/plain" ]};
      Body := msg |}, None).

Definition serverError (msg : string) : Response :=
  ({| StatusCode := StatusInternalServerError;
      Headers := {[ "Content-Type" := "text/plain" ]};
      Body := msg |}, None).

(** [fmt.Sprintf("imagen_%d_%s.png", idx, now.Format("20060102T150405"))] *)
Definition objectName (idx : nat) (now : Time) : string :=
  "imagen_" +:+ itoa idx +:+ "_" +:+ time.Format_20060102T150405 now +:+ ".png".

(** [path.Join(folderPrefix, fmt.Sprintf(...))] *)
Definition objectKey (idx : nat) (now : Time) : string :=
  path.Join [folderPrefix; objectName idx now].

(** [fmt.Sprintf("https://%s.s3.%s.amazonaws.com/%s", bucketName, region, key)] *)
Definition publicURL (key : string) : string :=
  "https://" +:+ bucketName +:+ ".s3." +:+ region +:+ ".amazonaws.com/" +:+ key.

(** [for idx, img := range genResp.GeneratedImages { ... }], from turn
    [idx] on, [imgs] being the images still to visit: [inl] is the early
    [return] of the failing upload, [inr] the slice [urls] after the
    last turn. *)
Fixpoint uploadLoop (idx : nat) (imgs : list GeneratedImage) (urls : Slice string)
    : Prog (Response + Slice string) :=
  match imgs with
  | [] => mret (inr urls)
  | img :: imgs' =>
      now ← time_Now;
      let key := objectKey idx now in
      err ← s3Client_PutObject
              {| put_Bucket := bucketName;
                 put_Key := key;
                 put_Body := ImageBytes (Image img);
                 put_ContentType := "image/png" |};
      match err with
      | Some err =>
          _ ← log_Printf ("S3 upload failed for " +:+ key +:+ ": " +:+ err);
          mret (inl (serverError ("failed to upload image: " +:+ err)))
      | None =>
          let url := publicURL key in
          uploadLoop (S idx) imgs' (append urls url)
      end
  end.

(** The model name of step 2. *)
Definition imagenModel : string := "imagen-4.0-generate-preview-06-06".

(** [genCfg] as step 2 builds it from the validated payload. *)
Definition generationConfig (in_ : requestPayload) : GenerateImagesConfig :=
  let genCfg :=
    {| cfg_NumberOfImages := NumberOfImages in_;
       cfg_AspectRatio := AspectRatio in_;
       cfg_PersonGeneration := "" |} in
  if decide (PersonGeneration in_ <> "")
  then set_cfg_PersonGeneration (PersonGeneration in_) genCfg
  else genCfg.

(** The defaults step 1 writes into [in] once the prompt is accepted. *)
Definition withDefaults (in_ : requestPayload) : requestPayload :=
  let in_ := if NumberOfImages in_ <=? 0 then set_NumberOfImages 1 in_ else in_ in
  if decide (AspectRatio in_ = "") then set_AspectRatio "SQUARE" in_ else in_.

Definition handler (req : APIGatewayProxyRequest) : Prog Response :=
  (* 1) Parse and validate input *)
  let '(in_, err) := json_Unmarshal (req_Body req) zeroRequestPayload in
  match err with
  | Some err => mret (clientError StatusBadRequest ("invalid JSON: " +:+ err))
  | None =>
      if decide (Prompt in_ = "") then
        mret (clientError StatusBadRequest "prompt is required")
      else
        let in_ := withDefaults in_ in
        (* 2) Call Imagen 4 *)
        let genCfg := generationConfig in_ in
        r ← genaiClient_GenerateImages imagenModel (Prompt in_) genCfg;
        match r with
        | inr err =>
            _ ← log_Printf ("GenAI error: " +:+ err);
            mret (serverError ("image generation failed: " +:+ err))
        | inl genResp =>
            (* 3) Upload each image directly from memory into S3 *)
            r ← uploadLoop 0 (GeneratedImages genResp) None;
            match r with
            | inl ret => mret ret
            | inr urls =>
                (* 4) Return JSON with all image URLs *)
                let respBody := json.Marshal json_quote {| ImageURLs := urls |} in
                mret ({| StatusCode := StatusOK;
                         Headers := {[ "Content-Type" := "application/json" ]};
                         Body := respBody |}, None)
            end
        end
  end.

(** *** Vocabulary for the statements *)

(** The [PutObjectInput] of turn [idx] for image [img] at clock reading
    [now]. *)
Definition uploadOf (idx : nat) (img : GeneratedImage) (now : Time) : PutObjectInput :=
  {| put_Bucket := bucketName;
     put_Key := objectKey idx now;
     put_Body := ImageBytes (Image img);
     put_ContentType := "image/png" |}.

(** The success response of step 4 for a slice of URLs. *)
Definition okResponse (urls : Slice string) : Response :=
  ({| StatusCode := StatusOK;
      Headers := {[ "Content-Type" := "application/json" ]};
      Body := json.Marshal json_quote {| ImageURLs := urls |} |}, None).

(** The two shapes of response the handler builds: the JSON success
    response, or a plain-text message under status 400 or 500. *)
Definition wellFormed (resp : APIGatewayProxyResponse) : Prop :=
  (StatusCode resp = StatusOK
   /\ Headers resp = {[ "Content-Type" := "application/json" ]}
   /\ exists urls, Body resp = json.Marshal json_quote {| ImageURLs := urls |})
  \/ ((StatusCode resp = StatusBadRequest \/ StatusCode resp = StatusInternalServerError)
      /\ Headers resp = {[ "Content-Type" := "text/plain" ]}).

(** The traces the loop can leave, turn by turn: it stops at the end of
    the images, or at the first failing upload after logging it, or it
    appends the URL and goes on. *)
Inductive LoopRun : nat -> list GeneratedImage -> Slice string ->
    list Event -> Response + Slice string -> Prop :=
| LoopRun_end idx urls :
    LoopRun idx [] urls [] (inr urls)
| LoopRun_abort idx img imgs urls now err :
    LoopRun idx (img :: imgs) urls
      [EvNow now;
       EvPutObject (uploadOf idx img now) (Some err);
       EvPrintf ("S3 upload failed for " +:+ objectKey idx now +:+ ": " +:+ err)]
      (inl (serverError ("failed to upload image: " +:+ err)))
| LoopRun_next idx img imgs urls now tr r :
    LoopRun (S idx) imgs (append urls (publicURL (objectKey idx now))) tr r ->
    LoopRun idx (img :: imgs) urls
      (EvNow now :: EvPutObject (uploadOf idx img now) None :: tr) r.

End Handler.

(** ** A concrete deployment, for running the handler *)

Module Scenario.

Definition q (s : string) : string := json.dquote +:+ s +:+ json.dquote.

(** The request bodies of the scenarios. *)
Definition body_cat : string :=
  "{" +:+ q "prompt" +:+ ":" +:+ q "A cat" +:+ ","
      +:+ q "numberOfImages" +:+ ":2,"
      +:+ q "aspectRatio" +:+ ":" +:+ q "SQUARE" +:+ "}".
Definition body_cat_zero : string :=
  "{" +:+ q "prompt" +:+ ":" +:+ q "A cat" +:+ "," +:+ q "numberOfImages" +:+ ":0}".
Definition body_cat_one : string :=
  "{" +:+ q "prompt" +:+ ":" +:+ q "A cat" +:+ "," +:+ q "numberOfImages" +:+ ":1}".
Definition body_empty_prompt : string :=
  "{" +:+ q "prompt" +:+ ":" +:+ q "" +:+ "}".
Definition body_truncated : string := "{" +:+ q "prompt" +:+ ":".

(** What [json.Unmarshal] answers on these bodies. *)
Definition Unmarshal (body : string) (v : requestPayload) : requestPayload * option error :=
  if String.eqb body body_cat then
    ({| NumberOfImages := 2; AspectRatio := "SQUARE";
        PersonGeneration := PersonGeneration v; Prompt := "A cat" |}, None)
  else if String.eqb body body_cat_zero then
    ({| NumberOfImages := 0; AspectRatio := AspectRatio v;
        PersonGeneration := PersonGeneration v; Prompt := "A cat" |}, None)
  else if String.eqb body body_cat_one then
    ({| NumberOfImages := 1; AspectRatio := AspectRatio v;
        PersonGeneration := PersonGeneration v; Prompt := "A cat" |}, None)
  else if String.eqb body body_empty_prompt then
    ({| NumberOfImages := NumberOfImages v; AspectRatio := AspectRatio v;
        PersonGeneration := PersonGeneration v; Prompt := "" |}, None)
  else (v, Some "unexpected end of JSON input").

(** The JSON rendering of a string that needs no escapes. *)
Definition quote (s : string) : string := q s.

(** A world whose state is the list of the answers S3 still has to
    give (it accepts every upload once the list is used up); the GenAI
    client answers [g] and the clock stands at [now]. *)
Definition world (g : GenerateImagesResponse + error) (now : Time)
    : Env (list (option error)) :=
  {| genai_GenerateImages := fun _ _ _ w => (g, w);
     s3_PutObject := fun _ w =>
       match w with
       | [] => (None, [])
       | r :: w' => (r, w')
       end;
     clock_Now := fun w => (now, w) |}.

Definition noon : Time :=
  {| Year := 2025; Month := 8; Day := 5; Hour := 12; Minute := 34; Second := 56 |}.

Definition png (b : Byte.byte) : GeneratedImage :=
  {| Image := {| ImageBytes := [Byte.x89; Byte.x50; Byte.x4e; Byte.x47; b] |} |}.

Definition two_images : GenerateImagesResponse :=
  {| GeneratedImages := [png Byte.x00; png Byte.x01] |}.

Definition one_image : GenerateImagesResponse :=
  {| GeneratedImages := [png Byte.x00] |}.

Definition no_images : GenerateImagesResponse := {| GeneratedImages := [] |}.

(** The handler of a deployment with bucket [bucket], region
    [us-east-1] and the folder prefix [folder]. *)
Definition deployed (folder : string) : APIGatewayProxyRequest -> Prog Response :=
  handler Unmarshal quote "bucket" folder "us-east-1".

End Scenario.

(** ** Process start-up *)

Module startup.

(** [os.Getenv(key)]: the value of the variable, or the empty string when
    the variable is not set. *)
Definition Getenv (environ : gmap string string) (key : string) : string :=
  default "" (environ !! key).

(** The two library calls of [init] that can fail, as the error each one
    returns ([None] is nil): [config.LoadDefaultConfig] for a region and
    [genai.NewClient] for an API key. *)
Record Libraries : Type := mkLibraries {
  config_LoadDefaultConfig : string -> option error;
  genai_NewClient : string -> option error
}.

(** The library calls [init] makes, in order. *)
Inductive InitCall : Type :=
| LoadDefaultConfig (region : string)
| NewFromConfig
| NewClient (apiKey : string).

(** The package variables once [init] is through (the two clients are
    kept by the calls that built them). *)
Record Globals : Type := mkGlobals {
  g_bucketName : string;
  g_folderPrefix : string;
  g_region : string
}.

(** [func init()]: [inl] is the message of the [log.Fatalf] that ends the
    process, [inr] the package variables of a process that starts. *)
Definition init (environ : gmap string string) (lib : Libraries)
    : (string + Globals) * list InitCall :=
  (* load AWS Output Bucket Configuration *)
  let region := Getenv environ "OUTPUT_BUCKET_REGION" in
  let region := if decide (region = "") then "us-east-1" else region in
  (* Load AWS config & create S3 client *)
  match config_LoadDefaultConfig lib region with
  | Some err =>
      (inl ("unable to load AWS SDK config: " +:+ err), [LoadDefaultConfig region])
  | None =>
      (* Read bucket + optional folder prefix from env *)
      let bucketName := Getenv environ "OUTPUT_BUCKET" in
      if decide (bucketName = "") then
        (inl "OUTPUT_BUCKET must be set", [LoadDefaultConfig region; NewFromConfig])
      else
        let folderPrefix := Getenv environ "OUTPUT_FOLDER" in
        (* Initialize GenAI client with API key from env *)
        let apiKey := Getenv environ "API_KEY" in
        if decide (apiKey = "") then
          (inl "API_KEY must be set", [LoadDefaultConfig region; NewFromConfig])
        else
          match genai_NewClient lib apiKey with
          | Some err =>
              (inl ("failed to create GenAI client: " +:+ err),
               [LoadDefaultConfig region; NewFromConfig; NewClient apiKey])
          | None =>
              (inr {| g_bucketName := bucketName;
                      g_folderPrefix := folderPrefix;
                      g_region := region |},
               [LoadDefaultConfig region; NewFromConfig; NewClient apiKey])
          end
  end.

(** The handler of the process [init] has started. *)
Definition handlerOf (json_Unmarshal : string -> requestPayload -> requestPayload * option error)
    (json_quote : string -> string) (g : Globals)
    : APIGatewayProxyRequest -> Prog Response :=
  handler json_Unmarshal json_quote (g_bucketName g) (g_folderPrefix g) (g_region g).

End startup.

(** ** More vocabulary for the statements *)

(** The lines a run has logged, in order. *)
Definition logs (tr : list Event) : list string :=
  omap (fun ev => match ev with
                  | EvPrintf line => Some line
                  | _ => None
                  end) tr.

(** [if rooted && out.w != 1 || !rooted && out.w != 0 { out.append('/') }],
    the slash [Clean] writes before a real path element. *)
Definition add_slash (rooted : bool) (out : list ascii) : list ascii :=
  if (rooted && negb (length out =? 1)%nat) || (negb rooted && negb (length out =? 0)%nat)
  then path.slash :: out else out.

(** The bytes other than the underscore that ends the turn number in an
    object name. *)
Definition not_underscore (c : ascii) : bool := negb (Ascii.eqb c "_").

(** The number a string of decimal digits writes, most significant digit
    first, on top of [acc]. *)
Fixpoint decimal (s : string) (acc : Z) : Z :=
  match s with
  | EmptyString => acc
  | String c s' => decimal s' (10 * acc + (Z.of_nat (nat_of_ascii c) - 48))
  end.

(** [encoding/json] storing a JSON integer into the [int32] field
    [NumberOfImages]: a number that overflows the type is skipped, the
    field keeps its value, and the call returns an [UnmarshalTypeError]. *)
Definition fits_int32 (n : Z) : bool := (- 2 ^ 31 <=? n) && (n <? 2 ^ 31).

Definition store_count (n : Z) (v : requestPayload) : requestPayload * option error :=
  if fits_int32 n then (set_NumberOfImages n v, None)
  else (v, Some ("json: cannot unmarshal number " +:+ pretty n
                   +:+ " into Go struct field requestPayload.numberOfImages of type int32")).

(** The scenario body with a count one below the least [int32], and the
    decoder's answers extended to it. *)
Definition body_cat_below_int32 : string :=
  "{" +:+ Scenario.q "prompt" +:+ ":" +:+ Scenario.q "A cat" +:+ ","
      +:+ Scenario.q "numberOfImages" +:+ ":-2147483649}".

Definition Unmarshal_int32 (body : string) (v : requestPayload)
    : requestPayload * option error :=
  if String.eqb body body_cat_below_int32 then
    store_count (-2147483649)
      {| NumberOfImages := NumberOfImages v; AspectRatio := AspectRatio v;
         PersonGeneration := PersonGeneration v; Prompt := "A cat" |}
  else Scenario.Unmarshal body v.

(** A deployment for running [init]: both library calls succeed. *)
Definition libraries_ok : startup.Libraries :=
  {| startup.config_LoadDefaultConfig := fun _ => None;
     startup.genai_NewClient := fun _ => None |}.

(** Process environments: only the two required variables, and the bucket
    alone. *)
Definition environ_minimal : gmap string string :=
  {[ "OUTPUT_BUCKET" := "bucket"; "API_KEY" := "secret" ]}.

Definition environ_no_key : gmap string string :=
  {[ "OUTPUT_BUCKET" := "bucket" ]}.

(** ** Facts about the library functions *)

Module pathFacts.

Import path.

(** The examples of the package documentation. *)
Example Clean_examples :
  map Clean ["a/c"; "a//c"; "a/c/."; "a/c/b/.."; "/../a/c"; "/../a/b/../././/c"; ""]
  = ["a/c"; "a/c"; "a/c"; "a/c"; "/a/c"; "/a/c"; "."].
Proof. vm_compute. reflexivity. Qed.

Example Join_examples :
  map Join [["a"; "b"; "c"]; ["a"; "b/c"]; ["a/b"; "c"]; ["a/b"; "../../../xyz"];
            [""; ""]; ["a"; ""]; [""; "a"]]
  = ["a/b/c"; "a/b/c"; "a/b/c"; "../xyz"; ""; "a"; "a"].
Proof. vm_compute. reflexivity. Qed.

Lemma append_cons (c : ascii) (a b : string) : String c a +:+ b = String c (a +:+ b).
Proof. reflexivity. Qed.

Lemma append_nil (b : string) : "" +:+ b = b.
Proof. reflexivity. Qed.

Lemma list_ascii_of_string_app (a b : string) :
  list_ascii_of_string (a +:+ b) = list_ascii_of_string a ++ list_ascii_of_string b.
Proof.
  induction a as [|c a IH]; [reflexivity|].
  rewrite append_cons. simpl. rewrite IH. reflexivity.
Qed.

Lemma string_app_assoc (a b c : string) : (a +:+ b) +:+ c = a +:+ b +:+ c.
Proof.
  induction a as [|x a IH]; [reflexivity|].
  rewrite !append_cons, IH. reflexivity.
Qed.

Lemma is_dot_spec (c : ascii) : is_dot c = true <-> c = dot.
Proof. unfold is_dot. apply Ascii.eqb_eq. Qed.

Lemma plain_plainl (name : string) :
  plain name = true -> plainl (list_ascii_of_string name).
Proof.
  unfold plain. rewrite !andb_true_iff, !negb_true_iff.
  intros [[[Hne Hdot] Hdd] Hall]. split.
  - apply Forall_forall. intros c Hc. rewrite forallb_forall in Hall.
    apply negb_true_iff. apply Hall. apply list_elem_of_In. exact Hc.
  - destruct name as [|c name]; [discriminate|]. simpl. intros Hc.
    apply is_dot_spec in Hc. subst c.
    destruct name as [|c1 name]; [discriminate|]. simpl. intros Hc1.
    apply is_dot_spec in Hc1. subst c1.
    destruct name; [discriminate|]. simpl. discriminate.
Qed.

Lemma copy_element_plain (e s' out : list ascii) :
  Forall (fun c => is_slash c = false) e ->
  ends_element s' = true ->
  copy_element (e ++ s') out = (s', rev e ++ out).
Proof.
  intros He Hs. revert out. induction He as [|c e Hc _ IH]; intros out; simpl.
  - destruct s' as [|c s']; simpl in *; [reflexivity|]. rewrite Hs. reflexivity.
  - rewrite Hc, IH, <- app_assoc. reflexivity.
Qed.

(** One turn of the loop copies a plain element, after a slash unless
    the buffer is empty. *)
Lemma Clean_loop_element (turns : nat) (e s' out : list ascii) (dotdot : nat) :
  plainl e ->
  ends_element s' = true ->
  Clean_loop (S turns) false (e ++ s') out dotdot =
    Clean_loop turns false s'
      (rev e ++ (if (length out =? 0)%nat then out else slash :: out)) dotdot.
Proof.
  intros [Hall Hdots] Hs.
  pose proof (copy_element_plain e s'
                (if (length out =? 0)%nat then out else slash :: out) Hall Hs) as Hcopy.
  destruct e as [|c e1]; [contradiction|].
  inversion Hall as [|? ? Hc Hall1]; subst.
  change (Clean_loop (S turns) false ((c :: e1) ++ s') out dotdot)
    with (Clean_loop (S turns) false (c :: (e1 ++ s')) out dotdot).
  cbn [Clean_loop]. rewrite Hc.
  assert (is_dot c && ends_element (e1 ++ s') = false) as ->.
  { destruct (is_dot c) eqn:Hd; [|reflexivity]. simpl.
    specialize (Hdots eq_refl). destruct e1 as [|c1 e2]; [contradiction|].
    inversion Hall1; subst. simpl. assumption. }
  assert (is_dot c && match e1 ++ s' with
                      | c1 :: s2 => is_dot c1 && ends_element s2
                      | [] => false
                      end = false) as ->.
  { destruct (is_dot c) eqn:Hd; [|reflexivity]. simpl.
    specialize (Hdots eq_refl). destruct e1 as [|c1 e2]; [contradiction|].
    simpl. destruct (is_dot c1) eqn:Hd1; [|reflexivity]. simpl.
    specialize (Hdots eq_refl). destruct e2 as [|c2 e3]; [contradiction|].
    inversion Hall1 as [|? ? _ Hall2]; subst. inversion Hall2; subst.
    simpl. assumption. }
  cbn [andb orb negb].
  change (c :: e1 ++ s') with ((c :: e1) ++ s').
  destruct (length out =? 0)%nat; cbn [negb]; rewrite Hcopy; reflexivity.
Qed.

Lemma copy_element_length (s out : list ascii) :
  (length (copy_element s out).1 <= length s)%nat.
Proof.
  revert out. induction s as [|c s IH]; intros out; simpl; [lia|].
  destruct (is_slash c); simpl; [lia|]. specialize (IH (c :: out)). lia.
Qed.

(** The loop of [Clean] ends by itself: once there are as many turns as
    bytes left, further turns change nothing. *)
Lemma Clean_loop_turns (t1 : nat) :
  forall t2 rooted s out dotdot,
    (length s <= t1)%nat -> (length s <= t2)%nat ->
    Clean_loop t1 rooted s out dotdot = Clean_loop t2 rooted s out dotdot.
Proof.
  induction t1 as [|t1 IH]; intros t2 rooted s out dotdot H1 H2.
  - destruct s; [|simpl in H1; lia]. destruct t2; reflexivity.
  - destruct s as [|c s1]; [destruct t2; reflexivity|].
    destruct t2 as [|t2]; [simpl in H2; lia|].
    simpl in H1, H2. cbn [Clean_loop].
    assert (length (tail s1) <= length s1)%nat as Htl by (destruct s1; simpl; lia).
    pose proof (copy_element_length s1 (c :: (if rooted && negb (length out =? 1)%nat
                                               || negb rooted && negb (length out =? 0)%nat
                                             then slash :: out else out))) as Hcopy.
    repeat match goal with
           | |- context [if ?b then _ else _] => destruct b eqn:?
           end;
      try (apply IH; lia).
    all: cbn [copy_element] in *;
      match goal with
      | H : is_slash _ = false |- _ => rewrite H in *
      end;
      destruct (copy_element s1 _) as [rest out2]; simpl in Hcopy; apply IH; lia.
Qed.

Lemma Clean_loop_slash (turns : nat) (rooted : bool) (s out : list ascii) (dotdot : nat) :
  Clean_loop (S turns) rooted (slash :: s) out dotdot =
    Clean_loop turns rooted s out dotdot.
Proof. reflexivity. Qed.

Lemma ends_element_segments (es : list (list ascii)) :
  ends_element (segments es) = true.
Proof. destruct es; reflexivity. Qed.

Lemma Clean_loop_segments (es : list (list ascii)) :
  forall turns out dotdot,
    Forall plainl es ->
    out <> [] ->
    (length (segments es) <= turns)%nat ->
    Clean_loop turns false (segments es) out dotdot = rev (segments es) ++ out.
Proof.
  induction es as [|e es IH]; intros turns out dotdot Hes Hout Hlen.
  - simpl. destruct turns; reflexivity.
  - inversion Hes as [|? ? He Hes']; subst.
    change (segments (e :: es)) with (slash :: (e ++ segments es)) in *.
    simpl in Hlen. rewrite length_app in Hlen.
    assert (e <> []) as Hne by (destruct He as [_ He]; destruct e; [contradiction|discriminate]).
    destruct turns as [|[|turns]]; [lia| destruct e; [contradiction|simpl in Hlen; lia] |].
    rewrite Clean_loop_slash.
    rewrite Clean_loop_element by (auto using ends_element_segments).
    destruct out as [|o out]; [contradiction|].
    cbn [length Nat.eqb].
    rewrite IH.
    + simpl. rewrite rev_app_distr, <- !app_assoc. reflexivity.
    + exact Hes'.
    + destruct (rev e); discriminate.
    + destruct e; [contradiction|]. simpl in Hlen. lia.
Qed.

(** [Clean] leaves a path of plain names separated by single slashes as
    it is. *)
Lemma Clean_plain_path (e : list ascii) (es : list (list ascii)) :
  plainl e -> Forall plainl es ->
  Clean (string_of_list_ascii (e ++ segments es)) =
    string_of_list_ascii (e ++ segments es).
Proof.
  intros He Hes. unfold Clean. rewrite list_ascii_of_string_of_list_ascii.
  destruct e as [|c e1]; [destruct He as [_ []]|].
  assert (is_slash c = false) as Hc.
  { destruct He as [Hall _]. inversion Hall; assumption. }
  change ((c :: e1) ++ segments es) with (c :: (e1 ++ segments es)).
  cbv beta iota zeta. rewrite Hc.
  change (length (c :: e1 ++ segments es)) with (S (length (e1 ++ segments es))).
  change (c :: e1 ++ segments es) with ((c :: e1) ++ segments es).
  rewrite Clean_loop_element by (auto using ends_element_segments).
  cbn [length Nat.eqb]. rewrite app_nil_r.
  rewrite Clean_loop_segments.
  - rewrite <- rev_app_distr.
    destruct (rev ((c :: e1) ++ segments es)) as [|x l] eqn:Hrev.
    + apply (f_equal (@rev ascii)) in Hrev. rewrite rev_involutive in Hrev.
      discriminate.
    + rewrite <- Hrev, rev_involutive. reflexivity.
  - exact Hes.
  - intros Hrev. apply (f_equal (@rev ascii)) in Hrev.
    rewrite rev_involutive in Hrev. discriminate.
  - rewrite length_app. lia.
Qed.

Lemma Join_nonempty_first (a b : string) :
  a <> "" -> Join [a; b] = Clean (a +:+ "/" +:+ b).
Proof.
  intros Ha. destruct a as [|c a]; [contradiction|].
  unfold Join. cbn [fold_left String.length Nat.add Nat.eqb negb orb String.eqb].
  rewrite !append_nil. cbn [String.length Nat.eqb negb orb].
  rewrite string_app_assoc. reflexivity.
Qed.

Lemma Join_empty_first (b : string) :
  b <> "" -> Join [""; b] = Clean b.
Proof.
  intros Hb. destruct b as [|c b]; [contradiction|].
  unfold Join. cbn [fold_left String.length Nat.add Nat.eqb negb orb String.eqb].
  rewrite append_nil. reflexivity.
Qed.

Lemma plain_nonempty (name : string) : plain name = true -> name <> "".
Proof. intros H ->. discriminate. Qed.

Lemma concat_bytes (name : string) (names : list string) :
  list_ascii_of_string (String.concat "/" (name :: names)) =
    list_ascii_of_string name ++ segments (map list_ascii_of_string names).
Proof.
  revert name. induction names as [|n names IH]; intros name.
  - simpl. rewrite app_nil_r. reflexivity.
  - change (String.concat "/" (name :: n :: names))
      with (name +:+ "/" +:+ String.concat "/" (n :: names)).
    rewrite !list_ascii_of_string_app, IH. reflexivity.
Qed.

(** [Join] of a prefix made of plain names and of a plain file name is
    the prefix, a slash and the file name. *)
Lemma Join_plain (names : list string) (file : string) :
  names <> [] ->
  Forall (fun n => plain n = true) names ->
  plain file = true ->
  Join [String.concat "/" names; file] = String.concat "/" names +:+ "/" +:+ file.
Proof.
  intros Hne Hnames Hfile.
  destruct names as [|name names]; [contradiction|].
  inversion Hnames as [|? ? Hname Hrest]; subst.
  assert (list_ascii_of_string (String.concat "/" (name :: names) +:+ "/" +:+ file) =
          list_ascii_of_string name
            ++ segments (map list_ascii_of_string (names ++ [file]))) as Hbytes.
  { rewrite !list_ascii_of_string_app, concat_bytes, map_app.
    unfold segments. rewrite flat_map_app, <- app_assoc. simpl.
    rewrite app_nil_r. reflexivity. }
  rewrite Join_nonempty_first.
  - rewrite <- (string_of_list_ascii_of_string
                  (String.concat "/" (name :: names) +:+ "/" +:+ file)).
    rewrite Hbytes. apply Clean_plain_path.
    + apply plain_plainl, Hname.
    + apply Forall_fmap, Forall_app. split.
      * eapply Forall_impl; [exact Hrest|]. intros n Hn. apply plain_plainl, Hn.
      * constructor; [apply plain_plainl, Hfile|constructor].
  - intros Hempty. apply (f_equal list_ascii_of_string) in Hempty.
    rewrite concat_bytes in Hempty. apply plain_nonempty in Hname.
    destruct name; [contradiction|discriminate].
Qed.

(** With an empty prefix [Join] returns the plain file name alone. *)
Lemma Join_no_prefix (file : string) :
  plain file = true -> Join [""; file] = file.
Proof.
  intros Hfile. rewrite Join_empty_first by (apply plain_nonempty, Hfile).
  rewrite <- (string_of_list_ascii_of_string file) at 1 2.
  rewrite <- (app_nil_r (list_ascii_of_string file)).
  apply (Clean_plain_path _ []); [apply plain_plainl, Hfile|constructor].
Qed.

End pathFacts.

Module timeFacts.

Import path time pathFacts.

(** The stamp in the object name of the README's sample response. *)
Example Format_example :
  Format_20060102T150405
    {| Year := 2025; Month := 8; Day := 5; Hour := 12; Minute := 34; Second := 56 |}
  = "20250805T123456".
Proof. vm_compute. reflexivity. Qed.

Lemma no_slash_app (a b : string) : no_slash a -> no_slash b -> no_slash (a +:+ b).
Proof.
  unfold no_slash. intros Ha Hb.
  rewrite list_ascii_of_string_app, forallb_app, Ha, Hb. reflexivity.
Qed.

Lemma no_slash_pretty_N_go (x : N) (s : string) :
  no_slash s -> no_slash (pretty_N_go x s).
Proof.
  revert s. induction (N.lt_wf_0 x) as [x _ IH]; intros s Hs.
  assert (x = 0 \/ 0 < x)%N as [->|Hpos] by lia.
  - rewrite pretty_N_go_0. exact Hs.
  - rewrite pretty_N_go_step by exact Hpos. apply IH.
    + apply N.div_lt; [exact Hpos|reflexivity].
    + unfold no_slash in *. simpl. rewrite Hs, andb_true_r.
      unfold pretty_N_char. repeat case_match; reflexivity.
Qed.

Lemma no_slash_pretty_N (x : N) : no_slash (pretty x).
Proof.
  unfold pretty, pretty_N. case_decide; [reflexivity|].
  apply no_slash_pretty_N_go. reflexivity.
Qed.

Lemma no_slash_itoa (n : nat) : no_slash (itoa n).
Proof. apply no_slash_pretty_N. Qed.

Lemma no_slash_zeros (n : nat) : no_slash (zeros n).
Proof. induction n as [|n IH]; [reflexivity|exact IH]. Qed.

Lemma no_slash_appendInt (x : Z) (width : nat) : no_slash (appendInt x width).
Proof.
  unfold appendInt.
  apply no_slash_app; [destruct (x <? 0); reflexivity|].
  apply no_slash_app; [apply no_slash_zeros|apply no_slash_pretty_N].
Qed.

Lemma no_slash_Format (t : Time) : no_slash (Format_20060102T150405 t).
Proof.
  unfold Format_20060102T150405.
  do 3 (apply no_slash_app; [apply no_slash_appendInt|]).
  apply no_slash_app; [reflexivity|].
  do 2 (apply no_slash_app; [apply no_slash_appendInt|]).
  apply no_slash_appendInt.
Qed.

(** The object name is a plain path element, whatever the turn and the
    clock. *)
Lemma objectName_plain (idx : nat) (now : Time) : plain (objectName idx now) = true.
Proof.
  assert (no_slash (objectName idx now)) as Hns.
  { unfold objectName.
    apply no_slash_app; [reflexivity|].
    apply no_slash_app; [apply no_slash_itoa|].
    apply no_slash_app; [reflexivity|].
    apply no_slash_app; [apply no_slash_Format|reflexivity]. }
  unfold plain. rewrite Hns, andb_true_r. reflexivity.
Qed.

(** Two-digit and four-digit fields, by running [appendInt] on every
    value of the range. *)
Lemma appendInt_2 (x : Z) : 0 <= x <= 99 -> digits 2 (appendInt x 2) = true.
Proof.
  intros Hx.
  assert (forallb (fun x => digits 2 (appendInt x 2)) (seqZ 0 100) = true) as Hall
    by (vm_compute; reflexivity).
  rewrite forallb_forall in Hall. apply Hall.
  apply list_elem_of_In, elem_of_seqZ. lia.
Qed.

Lemma appendInt_4 (x : Z) : 0 <= x <= 9999 -> digits 4 (appendInt x 4) = true.
Proof.
  intros Hx.
  assert (forallb (fun x => digits 4 (appendInt x 4)) (seqZ 0 10000) = true) as Hall
    by (vm_compute; reflexivity).
  rewrite forallb_forall in Hall. apply Hall.
  apply list_elem_of_In, elem_of_seqZ. lia.
Qed.

(** The stamp of a civil reading is YYYYMMDD, the letter T, hhmmss. *)
Lemma Format_civil (t : Time) :
  civil t ->
  exists YYYY MM DD hh mm ss,
    Format_20060102T150405 t = YYYY +:+ MM +:+ DD +:+ "T" +:+ hh +:+ mm +:+ ss
    /\ digits 4 YYYY = true /\ digits 2 MM = true /\ digits 2 DD = true
    /\ digits 2 hh = true /\ digits 2 mm = true /\ digits 2 ss = true.
Proof.
  intros (Hy & Hm & Hd & Hh & Hmi & Hs).
  exists (appendInt (Year t) 4), (appendInt (Month t) 2), (appendInt (Day t) 2),
    (appendInt (Hour t) 2), (appendInt (Minute t) 2), (appendInt (Second t) 2).
  split; [reflexivity|].
  repeat split; first [apply appendInt_4|apply appendInt_2]; lia.
Qed.

End timeFacts.

(** ** Running programs *)

Section RunFacts.

Context {W : Type} (env : Env W).

Lemma run_bind {A B : Type} (p : Prog A) (f : A -> Prog B) (w : W) :
  run env (bind p f) w =
    let '(a, w1, tr1) := run env p w in
    let '(b, w2, tr2) := run env (f a) w1 in
    (b, w2, tr1 ++ tr2).
Proof.
  revert w. induction p as [a|m pr c k IH|params k IH|k IH|line k IH]; intros w; simpl.
  - destruct (run env (f a) w) as [[b w2] tr2]. reflexivity.
  - destruct (genai_GenerateImages env m pr c w) as [r w1]. rewrite IH.
    destruct (run env (k r) w1) as [[a w2] tr1].
    destruct (run env (f a) w2) as [[b w3] tr2]. reflexivity.
  - destruct (s3_PutObject env params w) as [r w1]. rewrite IH.
    destruct (run env (k r) w1) as [[a w2] tr1].
    destruct (run env (f a) w2) as [[b w3] tr2]. reflexivity.
  - destruct (clock_Now env w) as [t w1]. rewrite IH.
    destruct (run env (k t) w1) as [[a w2] tr1].
    destruct (run env (f a) w2) as [[b w3] tr2]. reflexivity.
  - rewrite IH.
    destruct (run env k w) as [[a w2] tr1].
    destruct (run env (f a) w2) as [[b w3] tr2]. reflexivity.
Qed.

Lemma run_mbind {A B : Type} (p : Prog A) (f : A -> Prog B) (w : W) :
  run env (p ≫= f) w =
    let '(a, w1, tr1) := run env p w in
    let '(b, w2, tr2) := run env (f a) w1 in
    (b, w2, tr1 ++ tr2).
Proof. apply run_bind. Qed.

End RunFacts.

Lemma uploads_app (tr1 tr2 : list Event) :
  uploads (tr1 ++ tr2) = uploads tr1 ++ uploads tr2.
Proof. apply omap_app. Qed.

(** ** The upload loop *)

Section LoopFacts.

Variables bucketName folderPrefix region : string.

Local Abbreviation uploadLoop := (uploadLoop bucketName folderPrefix region).
Local Abbreviation LoopRun := (LoopRun bucketName folderPrefix region).
Local Abbreviation uploadOf := (uploadOf bucketName folderPrefix).
Local Abbreviation objectKey := (objectKey folderPrefix).
Local Abbreviation publicURL := (publicURL bucketName region).

(** Every run of the loop leaves one of the traces of [LoopRun]. *)
Lemma run_uploadLoop {W : Type} (env : Env W) (imgs : list GeneratedImage) :
  forall idx urls w r w' tr,
    run env (uploadLoop idx imgs urls) w = (r, w', tr) ->
    LoopRun idx imgs urls tr r.
Proof.
  induction imgs as [|img imgs IH]; intros idx urls w r w' tr Hrun; simpl in Hrun.
  - injection Hrun as <- <- <-. constructor.
  - destruct (clock_Now env w) as [now w1].
    destruct (s3_PutObject env _ w1) as [[err|] w2]; simpl in Hrun.
    + injection Hrun as <- <- <-. apply LoopRun_abort.
    + destruct (run env _ w2) as [[r2 w3] tr2] eqn:Hrest.
      injection Hrun as <- <- <-.
      apply LoopRun_next. eapply IH. exact Hrest.
Qed.

(** The loop calls neither client but S3, and reads the clock once per
    upload. *)
Lemma LoopRun_calls idx imgs urls tr r :
  LoopRun idx imgs urls tr r ->
  generations tr = [] /\ length (clock tr) = length (uploads tr)
  /\ (length (uploads tr) <= length imgs)%nat.
Proof.
  induction 1 as [idx urls|idx img imgs urls now err|idx img imgs urls now tr r _ IH]; simpl.
  - auto.
  - repeat split; auto with lia.
  - destruct IH as (Hg & Hc & Hl). repeat split; auto with lia.
Qed.

(** The [j]-th upload of the loop stores the [j]-th image, under the key
    of turn [idx + j] and of the [j]-th clock reading. *)
Lemma LoopRun_upload_at idx imgs urls tr r :
  LoopRun idx imgs urls tr r ->
  forall j p res, uploads tr !! j = Some (p, res) ->
    exists img now,
      imgs !! j = Some img /\ clock tr !! j = Some now
      /\ p = uploadOf (idx + j) img now.
Proof.
  induction 1 as [idx urls|idx img imgs urls now err|idx img imgs urls now tr r _ IH];
    intros j p res Hj; simpl in Hj.
  - discriminate.
  - destruct j as [|j]; simpl in Hj; [|discriminate].
    injection Hj as <- <-. exists img, now. rewrite Nat.add_0_r. auto.
  - destruct j as [|j]; simpl in Hj.
    + injection Hj as <- <-. exists img, now. rewrite Nat.add_0_r. auto.
    + destruct (IH _ _ _ Hj) as (img' & now' & Hi & Hc & ->).
      exists img', now'. simpl. rewrite Nat.add_succ_r. auto.
Qed.

(** A loop that runs to its end has stored every image, and has appended
    the URLs of the keys, in the order of the uploads. *)
Lemma LoopRun_completed idx imgs urls tr urls' :
  LoopRun idx imgs urls tr (inr urls') ->
  length (uploads tr) = length imgs
  /\ Forall (fun u => u.2 = None) (uploads tr)
  /\ elems urls' = elems urls ++ map (fun u => publicURL (put_Key u.1)) (uploads tr)
  /\ (urls' = None <-> urls = None /\ imgs = []).
Proof.
  remember (inr urls') as r eqn:Hr. intros Hrun. revert urls' Hr.
  induction Hrun as [idx urls|idx img imgs urls now err|idx img imgs urls now tr r _ IH];
    intros urls' Hr; simpl.
  - injection Hr as ->. rewrite app_nil_r. repeat split; auto. tauto.
  - discriminate.
  - destruct (IH _ Hr) as (Hlen & Hok & Hurls & Hnil).
    split; [|split; [|split]].
    + rewrite Hlen. reflexivity.
    + constructor; auto.
    + rewrite Hurls. destruct urls as [l|]; simpl; [rewrite <- app_assoc|]; reflexivity.
    + split.
      * intros Hn. apply Hnil in Hn as [Hn _]. destruct urls; discriminate.
      * intros [_ Himgs]. discriminate.
Qed.

(** A loop that returns early has seen exactly one upload fail, the last
    one; the trace ends with that upload and its log line. *)
Lemma LoopRun_aborted idx imgs urls tr ret :
  LoopRun idx imgs urls tr (inl ret) ->
  exists pre p err line,
    tr = pre ++ [EvPutObject p (Some err); EvPrintf line]
    /\ Forall (fun u => u.2 = None) (uploads pre)
    /\ ret = serverError ("failed to upload image: " +:+ err).
Proof.
  remember (inl ret) as r eqn:Hr. intros Hrun. revert ret Hr.
  induction Hrun as [idx urls|idx img imgs urls now err|idx img imgs urls now tr r _ IH];
    intros ret Hr.
  - discriminate.
  - injection Hr as <-.
    exists [EvNow now], (uploadOf idx img now), err,
      ("S3 upload failed for " +:+ objectKey idx now +:+ ": " +:+ err).
    repeat split; auto.
  - destruct (IH _ Hr) as (pre & p & err & line & -> & Hok & ->).
    exists (EvNow now :: EvPutObject (uploadOf idx img now) None :: pre), p, err, line.
    repeat split; auto. simpl. constructor; auto.
Qed.

(** The two outcomes are told apart by the answers of S3. *)
Lemma LoopRun_outcome idx imgs urls tr r :
  LoopRun idx imgs urls tr r ->
  match r with
  | inr _ => Forall (fun u => u.2 = None) (uploads tr)
  | inl _ => exists ups p err,
      uploads tr = ups ++ [(p, Some err)] /\ Forall (fun u => u.2 = None) ups
  end.
Proof.
  intros Hrun. destruct r as [ret|urls'].
  - destruct (LoopRun_aborted _ _ _ _ _ Hrun) as (pre & p & err & line & -> & Hok & _).
    exists (uploads pre), p, err. rewrite uploads_app. auto.
  - apply (LoopRun_completed _ _ _ _ _ Hrun).
Qed.

(** When every upload was accepted the loop ran to its end. *)
Lemma LoopRun_all_ok idx imgs urls tr r :
  LoopRun idx imgs urls tr r ->
  Forall (fun u => u.2 = None) (uploads tr) ->
  exists urls', r = inr urls'.
Proof.
  intros Hrun Hok. destruct r as [ret|urls']; [|eauto].
  apply LoopRun_outcome in Hrun as (ups & p & err & Hups & _).
  rewrite Hups in Hok. apply Forall_app in Hok as [_ Hlast].
  inversion Hlast as [|? ? Hhd _]. discriminate.
Qed.

(** A failing upload is the last call of S3: the uploads before it were
    accepted, none follows, and the loop returns the 500 response after
    the log line. *)
Lemma LoopRun_failed_at idx imgs urls tr r :
  LoopRun idx imgs urls tr r ->
  forall i p err, uploads tr !! i = Some (p, Some err) ->
    r = inl (serverError ("failed to upload image: " +:+ err))
    /\ length (uploads tr) = S i
    /\ (forall j, (j < i)%nat -> exists pj, uploads tr !! j = Some (pj, None))
    /\ exists pre line, tr = pre ++ [EvPutObject p (Some err); EvPrintf line].
Proof.
  induction 1 as [idx urls|idx img imgs urls now err0|idx img imgs urls now tr r _ IH];
    intros i p err Hi; simpl in Hi.
  - discriminate.
  - destruct i as [|i]; simpl in Hi; [|discriminate].
    injection Hi as <- <-. repeat split.
    + intros j Hj. lia.
    + exists [EvNow now]. eexists. reflexivity.
  - destruct i as [|i]; simpl in Hi; [discriminate|].
    destruct (IH _ _ _ Hi) as (-> & Hlen & Hbefore & pre & line & ->).
    repeat split.
    + simpl. f_equal. exact Hlen.
    + intros [|j] Hj; simpl.
      * eauto.
      * apply Hbefore. lia.
    + exists (EvNow now :: EvPutObject (uploadOf idx img now) None :: pre), line.
      reflexivity.
Qed.

End LoopFacts.

(** ** The handler *)

Section HandlerFacts.

Variable json_Unmarshal : string -> requestPayload -> requestPayload * option error.
Variable json_quote : string -> string.
Variables bucketName folderPrefix region : string.

Local Abbreviation handler :=
  (handler json_Unmarshal json_quote bucketName folderPrefix region).
Local Abbreviation LoopRun := (LoopRun bucketName folderPrefix region).
Local Abbreviation uploadOf := (uploadOf bucketName folderPrefix).
Local Abbreviation objectKey := (objectKey folderPrefix).
Local Abbreviation publicURL := (publicURL bucketName region).
Local Abbreviation okResponse := (okResponse json_quote).
Local Abbreviation wellFormed := (wellFormed json_quote).

Lemma withDefaults_Prompt (in_ : requestPayload) :
  Prompt (withDefaults in_) = Prompt in_.
Proof.
  unfold withDefaults.
  destruct (NumberOfImages in_ <=? 0); simpl;
    match goal with |- context [decide ?P] => destruct (decide P) end; reflexivity.
Qed.

(** A request whose body decodes with a prompt: one call of the GenAI
    client, then either its error is logged and reported, or the loop
    runs over the images it returned. *)
Lemma handler_run_valid {W : Type} (env : Env W) req in_ w ret w' tr :
  json_Unmarshal (req_Body req) zeroRequestPayload = (in_, None) ->
  Prompt in_ <> "" ->
  run env (handler req) w = (ret, w', tr) ->
  exists res tl,
    tr = EvGenerateImages imagenModel (Prompt in_)
           (generationConfig (withDefaults in_)) res :: tl
    /\ match res with
       | inr err =>
           tl = [EvPrintf ("GenAI error: " +:+ err)]
           /\ ret = serverError ("image generation failed: " +:+ err)
       | inl genResp =>
           exists r,
             LoopRun 0 (GeneratedImages genResp) None tl r
             /\ ret = match r with
                      | inl early => early
                      | inr urls => okResponse urls
                      end
       end.
Proof.
  intros Hdec Hprompt Hrun. unfold handler in Hrun. rewrite Hdec in Hrun.
  destruct (decide (Prompt in_ = "")) as [|_]; [contradiction|].
  rewrite withDefaults_Prompt in Hrun. simpl in Hrun.
  destruct (genai_GenerateImages env _ _ _ w) as [res w1].
  exists res. destruct res as [genResp|err].
  - change (bind (Ret (inl genResp)) ?f) with (f (inl genResp)) in Hrun.
    cbv beta iota in Hrun. rewrite run_mbind in Hrun.
    match type of Hrun with context [@run ?W' ?A' env ?p w1] =>
      destruct (@run W' A' env p w1) as [[r w2] tl] eqn:Hloop
    end.
    apply run_uploadLoop in Hloop.
    destruct r as [early|urls]; simpl in Hrun; injection Hrun as <- <- <-;
      rewrite app_nil_r; eexists; (split; [reflexivity|]); eexists; split; eauto.
  - simpl in Hrun. injection Hrun as <- <- <-.
    eexists; split; [reflexivity|]. auto.
Qed.

(** The first step on a valid request: split its run into the generation
    call [res] and the rest [tl] of the trace. *)
Tactic Notation "valid_run" constr(env) hyp(Hdec) hyp(Hprompt) hyp(Hrun)
    "as" ident(res) ident(tl) ident(Hres) :=
  destruct (handler_run_valid env _ _ _ _ _ _ Hdec Hprompt Hrun)
    as (res & tl & -> & Hres).

Lemma withDefaults_coerced (in_ : requestPayload) :
  NumberOfImages in_ <= 0 ->
  withDefaults (set_NumberOfImages 1 in_) = withDefaults in_.
Proof.
  intros Hn. unfold withDefaults.
  apply Z.leb_le in Hn. rewrite Hn. reflexivity.
Qed.

(** The trace of a request that passed validation: one generation call
    first, and the uploads and clock readings are those of the loop. *)
Lemma valid_trace_calls genResp (tl : list Event) r m pr c :
  LoopRun 0 (GeneratedImages genResp) None tl r ->
  generations (EvGenerateImages m pr c (inl genResp) :: tl) = [(m, pr, c, inl genResp)]
  /\ uploads (EvGenerateImages m pr c (inl genResp) :: tl) = uploads tl
  /\ clock (EvGenerateImages m pr c (inl genResp) :: tl) = clock tl.
Proof.
  intros Hloop. destruct (LoopRun_calls _ _ _ _ _ _ _ _ Hloop) as (Hg & _).
  split; [|split; reflexivity].
  change (generations (EvGenerateImages m pr c (inl genResp) :: tl))
    with ((m, pr, c, inl genResp) :: generations tl).
  rewrite Hg. reflexivity.
Qed.

(** C2: a body that decodes to a payload whose prompt is empty (it was
    empty in the body, or absent and so left at the zero value) is answered
    with status 400, and the run makes no call at all: no generation, no
    upload, and the world is left as it was. *)
Theorem empty_prompt_rejected_without_calls {W : Type} (env : Env W) req in_ w ret w' tr :
  json_Unmarshal (req_Body req) zeroRequestPayload = (in_, None) ->
  Prompt in_ = "" ->
  run env (handler req) w = (ret, w', tr) ->
  StatusCode ret.1 = 400 /\ Body ret.1 = "prompt is required" /\ ret.2 = None
  /\ generations tr = [] /\ uploads tr = [] /\ tr = [] /\ w' = w.
Proof.
  intros Hdec Hprompt Hrun. unfold handler in Hrun. rewrite Hdec in Hrun.
  destruct (decide (Prompt in_ = "")) as [_|]; [|contradiction].
  simpl in Hrun. injection Hrun as <- <- <-. repeat split.
Qed.

(** C8: a body the decoder rejects is answered with status 400 and a
    plain-text body that carries the decoder's message, before any call. *)
Theorem malformed_body_rejected_without_calls {W : Type} (env : Env W)
    req in_ err w ret w' tr :
  json_Unmarshal (req_Body req) zeroRequestPayload = (in_, Some err) ->
  run env (handler req) w = (ret, w', tr) ->
  StatusCode ret.1 = 400
  /\ Headers ret.1 = {[ "Content-Type" := "text/plain" ]}
  /\ Body ret.1 = "invalid JSON: " +:+ err
  /\ ret.2 = None
  /\ generations tr = [] /\ uploads tr = [] /\ tr = [] /\ w' = w.
Proof.
  intros Hdec Hrun. unfold handler in Hrun. rewrite Hdec in Hrun.
  simpl in Hrun. injection Hrun as <- <- <-. repeat split.
Qed.

(** C3: when the generation call of a valid request fails with [err],
    the trace is that one call followed by the log line: the client was
    called exactly once, nothing was uploaded, and the response is status
    500 with the upstream error text in its body. *)
Theorem generation_failure_no_uploads {W : Type} (env : Env W)
    req in_ w ret w' tr m pr c err :
  json_Unmarshal (req_Body req) zeroRequestPayload = (in_, None) ->
  Prompt in_ <> "" ->
  run env (handler req) w = (ret, w', tr) ->
  (m, pr, c, inr err) ∈ generations tr ->
  StatusCode ret.1 = 500
  /\ Body ret.1 = "image generation failed: " +:+ err
  /\ ret.2 = None
  /\ uploads tr = []
  /\ length (generations tr) = 1%nat
  /\ tr = [EvGenerateImages imagenModel (Prompt in_)
             (generationConfig (withDefaults in_)) (inr err);
           EvPrintf ("GenAI error: " +:+ err)].
Proof.
  intros Hdec Hprompt Hrun Hin.
  valid_run env Hdec Hprompt Hrun as res tl Hres.
  destruct res as [genResp|err'].
  - destruct Hres as (r & Hloop & _).
    destruct (valid_trace_calls _ _ _ imagenModel (Prompt in_)
                (generationConfig (withDefaults in_)) Hloop) as (Hg & _).
    rewrite Hg in Hin. apply list_elem_of_singleton in Hin. discriminate.
  - destruct Hres as (-> & ->).
    apply list_elem_of_singleton in Hin. injection Hin as _ _ _ ->.
    repeat split.
Qed.

(** C10: when the generation call of a valid request succeeds with no
    image, nothing is uploaded and the response is status 200 with the nil
    slice encoded as JSON [null]. *)
Theorem zero_images_null_list {W : Type} (env : Env W)
    req in_ w ret w' tr m pr c genResp :
  json_Unmarshal (req_Body req) zeroRequestPayload = (in_, None) ->
  Prompt in_ <> "" ->
  run env (handler req) w = (ret, w', tr) ->
  (m, pr, c, inl genResp) ∈ generations tr ->
  GeneratedImages genResp = [] ->
  uploads tr = []
  /\ StatusCode ret.1 = 200
  /\ Headers ret.1 = {[ "Content-Type" := "application/json" ]}
  /\ Body ret.1 = "{" +:+ json.dquote +:+ "imageUrls" +:+ json.dquote +:+ ":null}"
  /\ ret.2 = None.
Proof.
  intros Hdec Hprompt Hrun Hin Himgs.
  valid_run env Hdec Hprompt Hrun as res tl Hres.
  destruct res as [genResp'|err'].
  - destruct Hres as (r & Hloop & ->).
    destruct (valid_trace_calls _ _ _ imagenModel (Prompt in_)
                (generationConfig (withDefaults in_)) Hloop) as (Hg & Hu & _).
    rewrite Hg in Hin. apply list_elem_of_singleton in Hin. injection Hin as _ _ _ ->.
    rewrite Hu. rewrite Himgs in Hloop. inversion Hloop; subst. repeat split.
  - destruct Hres as (-> & ->).
    apply list_elem_of_singleton in Hin. discriminate.
Qed.

(** C4: when the upload of image [i] of a valid request fails with
    [err], the response is status 500 with a plain-text message and no list
    of URLs; the uploads of images 0..i-1 were accepted by S3 before it
    (each under its own key, with the bytes of its image), the failing
    upload is the last call of S3, and all that follows it in the trace is
    the log line: nothing is undone and no later image is tried. *)
Theorem upload_failure_aborts_after_partial_writes {W : Type} (env : Env W)
    req in_ w ret w' tr i p err :
  json_Unmarshal (req_Body req) zeroRequestPayload = (in_, None) ->
  Prompt in_ <> "" ->
  run env (handler req) w = (ret, w', tr) ->
  uploads tr !! i = Some (p, Some err) ->
  StatusCode ret.1 = 500
  /\ Headers ret.1 = {[ "Content-Type" := "text/plain" ]}
  /\ Body ret.1 = "failed to upload image: " +:+ err
  /\ ret.2 = None
  /\ length (uploads tr) = S i
  /\ (exists genResp,
        generations tr = [(imagenModel, Prompt in_,
                           generationConfig (withDefaults in_), inl genResp)]
        /\ forall j, (j <= i)%nat ->
             exists img now,
               GeneratedImages genResp !! j = Some img
               /\ clock tr !! j = Some now
               /\ uploads tr !! j =
                    Some (uploadOf j img now, if decide (j = i) then Some err else None))
  /\ exists pre line, tr = pre ++ [EvPutObject p (Some err); EvPrintf line].
Proof.
  intros Hdec Hprompt Hrun Hi.
  valid_run env Hdec Hprompt Hrun as res tl Hres.
  destruct res as [genResp|err'].
  - destruct Hres as (r & Hloop & ->).
    destruct (valid_trace_calls _ _ _ imagenModel (Prompt in_)
                (generationConfig (withDefaults in_)) Hloop) as (Hg & Hu & Hc).
    rewrite Hu in *. rewrite Hc.
    destruct (LoopRun_failed_at _ _ _ _ _ _ _ _ Hloop _ _ _ Hi)
      as (-> & Hlen & Hbefore & pre & line & ->).
    split; [reflexivity|]. split; [reflexivity|]. split; [reflexivity|].
    split; [reflexivity|]. split; [exact Hlen|]. split.
    + exists genResp. split; [exact Hg|].
      intros j Hj.
      assert (exists pj, uploads (pre ++ [EvPutObject p (Some err); EvPrintf line]) !! j
                         = Some (pj, if decide (j = i) then Some err else None))
        as (pj & Hpj).
      { destruct (decide (j = i)) as [->|Hne]; [eauto|]. apply Hbefore. lia. }
      destruct (LoopRun_upload_at _ _ _ _ _ _ _ _ Hloop _ _ _ Hpj)
        as (img & now & Himg & Hnow & ->).
      exists img, now. auto.
    + exists (EvGenerateImages imagenModel (Prompt in_)
                (generationConfig (withDefaults in_)) (inl genResp) :: pre), line.
      reflexivity.
  - destruct Hres as (-> & _). simpl in Hi. discriminate.
Qed.

(** The run of a valid request whose generation call succeeded and whose
    uploads were all accepted. *)
Lemma run_all_uploads_ok {W : Type} (env : Env W)
    req in_ w ret w' tr m pr c genResp :
  json_Unmarshal (req_Body req) zeroRequestPayload = (in_, None) ->
  Prompt in_ <> "" ->
  run env (handler req) w = (ret, w', tr) ->
  (m, pr, c, inl genResp) ∈ generations tr ->
  Forall (fun u => u.2 = None) (uploads tr) ->
  exists urls,
    ret = okResponse urls
    /\ StatusCode ret.1 = 200
    /\ cfg_NumberOfImages c = NumberOfImages (withDefaults in_)
    /\ length (elems urls) = length (GeneratedImages genResp)
    /\ length (uploads tr) = length (GeneratedImages genResp)
    /\ forall j img, GeneratedImages genResp !! j = Some img ->
         exists now,
           clock tr !! j = Some now
           /\ uploads tr !! j = Some (uploadOf j img now, None)
           /\ elems urls !! j = Some (publicURL (objectKey j now)).
Proof.
  intros Hdec Hprompt Hrun Hin Hok.
  valid_run env Hdec Hprompt Hrun as res tl Hres.
  destruct res as [genResp'|err'].
  - destruct Hres as (r & Hloop & ->).
    destruct (valid_trace_calls _ _ _ imagenModel (Prompt in_)
                (generationConfig (withDefaults in_)) Hloop) as (Hg & Hu & Hc).
    rewrite Hg in Hin. apply list_elem_of_singleton in Hin. injection Hin as -> -> -> ->.
    rewrite Hu in *. rewrite Hc.
    destruct (LoopRun_all_ok _ _ _ _ _ _ _ _ Hloop Hok) as (urls & ->).
    destruct (LoopRun_completed _ _ _ _ _ _ _ _ Hloop) as (Hlen & _ & Hurls & _).
    exists urls. split; [reflexivity|]. split; [reflexivity|].
    split.
    { unfold generationConfig.
      destruct (decide (PersonGeneration (withDefaults in_) <> "")); reflexivity. }
    split; [rewrite Hurls; simpl; rewrite length_map; exact Hlen|].
    split; [exact Hlen|].
    intros j img Himg.
    assert (j < length (uploads tl))%nat as Hj.
    { rewrite Hlen. eapply lookup_lt_Some. exact Himg. }
    apply lookup_lt_is_Some_2 in Hj as [[pj res] Hpj].
    destruct (LoopRun_upload_at _ _ _ _ _ _ _ _ Hloop _ _ _ Hpj)
      as (img' & now & Himg' & Hnow & ->).
    assert (img' = img) as -> by congruence.
    assert (res = None) as ->.
    { rewrite Forall_lookup in Hok. apply (Hok _ _ Hpj). }
    exists now. split; [exact Hnow|]. split; [exact Hpj|].
    rewrite Hurls. simpl. rewrite list_lookup_fmap, Hpj. reflexivity.
  - destruct Hres as (-> & _).
    apply list_elem_of_singleton in Hin. discriminate.
Qed.

(** C1, amended: when the generation call of a valid request succeeds
    and every upload is accepted, the response is status 200 and its body
    encodes a list with exactly one URL per image the client returned:
    image [j] was stored under the key of turn [j], and the [j]-th URL is
    the public URL of that key.  The count the request asked for is passed
    to the client but does not bound the list. *)
Theorem all_uploads_ok_one_url_per_image {W : Type} (env : Env W)
    req in_ w ret w' tr m pr c genResp :
  json_Unmarshal (req_Body req) zeroRequestPayload = (in_, None) ->
  Prompt in_ <> "" ->
  run env (handler req) w = (ret, w', tr) ->
  (m, pr, c, inl genResp) ∈ generations tr ->
  Forall (fun u => u.2 = None) (uploads tr) ->
  exists urls,
    ret = okResponse urls
    /\ StatusCode ret.1 = 200
    /\ cfg_NumberOfImages c = NumberOfImages (withDefaults in_)
    /\ length (elems urls) = length (GeneratedImages genResp)
    /\ length (uploads tr) = length (GeneratedImages genResp)
    /\ forall j img, GeneratedImages genResp !! j = Some img ->
         exists now,
           clock tr !! j = Some now
           /\ uploads tr !! j = Some (uploadOf j img now, None)
           /\ elems urls !! j = Some (publicURL (objectKey j now)).
Proof. apply run_all_uploads_ok. Qed.

(** C6, amended: the key of the [j]-th upload is
    [path.Join(folderPrefix, name)], where [name] is
    [imagen_{j}_{stamp}.png] and [stamp] prints the clock reading of that
    turn, as YYYYMMDDThhmmss when the reading is a civil time of the years
    0..9999.  With an empty folder prefix the key is the name alone; with
    a prefix made of plain folder names separated by single slashes it is
    the prefix, a slash and the name.  Other prefixes are cleaned by
    [Join]. *)
Theorem object_key_is_joined_path {W : Type} (env : Env W)
    req in_ w ret w' tr j p res :
  json_Unmarshal (req_Body req) zeroRequestPayload = (in_, None) ->
  Prompt in_ <> "" ->
  run env (handler req) w = (ret, w', tr) ->
  uploads tr !! j = Some (p, res) ->
  exists now,
    clock tr !! j = Some now
    /\ put_Key p = path.Join [folderPrefix; objectName j now]
    /\ objectName j now =
         "imagen_" +:+ itoa j +:+ "_" +:+ time.Format_20060102T150405 now +:+ ".png"
    /\ (folderPrefix = "" -> put_Key p = objectName j now)
    /\ (forall names,
          names <> [] -> Forall (fun n => path.plain n = true) names ->
          folderPrefix = String.concat "/" names ->
          put_Key p = folderPrefix +:+ "/" +:+ objectName j now)
    /\ (time.civil now ->
        exists YYYY MM DD hh mm ss,
          time.Format_20060102T150405 now =
            YYYY +:+ MM +:+ DD +:+ "T" +:+ hh +:+ mm +:+ ss
          /\ time.digits 4 YYYY = true /\ time.digits 2 MM = true
          /\ time.digits 2 DD = true /\ time.digits 2 hh = true
          /\ time.digits 2 mm = true /\ time.digits 2 ss = true).
Proof.
  intros Hdec Hprompt Hrun Hj.
  valid_run env Hdec Hprompt Hrun as res' tl Hres.
  destruct res' as [genResp|err'].
  - destruct Hres as (r & Hloop & _).
    destruct (valid_trace_calls _ _ _ imagenModel (Prompt in_)
                (generationConfig (withDefaults in_)) Hloop) as (_ & Hu & Hc).
    rewrite Hu in Hj. rewrite Hc.
    destruct (LoopRun_upload_at _ _ _ _ _ _ _ _ Hloop _ _ _ Hj)
      as (img & now & _ & Hnow & ->).
    exists now. split; [exact Hnow|]. split; [reflexivity|]. split; [reflexivity|].
    split; [|split].
    + intros ->. apply pathFacts.Join_no_prefix, timeFacts.objectName_plain.
    + intros names Hne Hplain ->.
      apply pathFacts.Join_plain; auto using timeFacts.objectName_plain.
    + apply timeFacts.Format_civil.
  - destruct Hres as (-> & _). simpl in Hj. discriminate.
Qed.

(** C7, amended: when every upload is accepted, the [j]-th URL of the
    response is [https://{bucket}.s3.{region}.amazonaws.com/{key}] for the
    key of the [j]-th upload, a function of the bucket, the region and the
    key alone, so the URLs follow the order of the uploads.  For the bucket
    [bucket], the region [us-east-1] and an empty folder prefix the first
    URL is [https://bucket.s3.us-east-1.amazonaws.com/imagen_0_{stamp}.png]. *)
Theorem public_url_layout {W : Type} (env : Env W)
    req in_ w ret w' tr m pr c genResp :
  json_Unmarshal (req_Body req) zeroRequestPayload = (in_, None) ->
  Prompt in_ <> "" ->
  run env (handler req) w = (ret, w', tr) ->
  (m, pr, c, inl genResp) ∈ generations tr ->
  Forall (fun u => u.2 = None) (uploads tr) ->
  exists urls,
    ret = okResponse urls
    /\ length (elems urls) = length (uploads tr)
    /\ (forall j p res, uploads tr !! j = Some (p, res) ->
          elems urls !! j =
            Some ("https://" +:+ bucketName +:+ ".s3." +:+ region
                    +:+ ".amazonaws.com/" +:+ put_Key p))
    /\ (bucketName = "bucket" -> region = "us-east-1" -> folderPrefix = "" ->
        forall now, clock tr !! 0%nat = Some now ->
          elems urls !! 0%nat =
            Some ("https://bucket.s3.us-east-1.amazonaws.com/imagen_0_"
                    +:+ time.Format_20060102T150405 now +:+ ".png")).
Proof.
  intros Hdec Hprompt Hrun Hin Hok.
  destruct (run_all_uploads_ok env _ _ _ _ _ _ _ _ _ _
              Hdec Hprompt Hrun Hin Hok)
    as (urls & -> & _ & _ & Hlen & Hlen' & Hat).
  exists urls. split; [reflexivity|]. split; [congruence|]. split.
  - intros j p res Hj.
    assert (j < length (GeneratedImages genResp))%nat as Hlt.
    { rewrite <- Hlen'. eapply lookup_lt_Some. exact Hj. }
    apply lookup_lt_is_Some_2 in Hlt as [img Himg].
    destruct (Hat _ _ Himg) as (now & _ & Hup & Hurl).
    rewrite Hup in Hj. injection Hj as <- <-. exact Hurl.
  - intros Hb Hr Hf now Hnow.
    destruct (GeneratedImages genResp) as [|img imgs] eqn:Himgs.
    + destruct (uploads tr) as [|u us] eqn:Hups; [|discriminate].
      destruct (handler_run_valid env _ _ _ _ _ _ Hdec Hprompt Hrun)
        as (res' & tl & Htr & Hres).
      destruct res' as [genResp'|err'].
      * destruct Hres as (r & Hloop & _).
        destruct (LoopRun_calls _ _ _ _ _ _ _ _ Hloop) as (_ & Hc & _).
        rewrite Htr in Hnow, Hups. simpl in Hnow, Hups. 
        change (uploads tl = []) in Hups. rewrite Hups in Hc.
        change (clock tl !! 0%nat = Some now) in Hnow.
        destruct (clock tl); discriminate.
      * destruct Hres as (-> & _). rewrite Htr in Hnow. discriminate.
    + destruct (Hat 0%nat img eq_refl) as (now' & Hnow' & _ & Hurl).
      rewrite Hnow in Hnow'. injection Hnow' as <-.
      rewrite Hurl. f_equal. unfold publicURL, objectKey. subst.
      rewrite pathFacts.Join_no_prefix by apply timeFacts.objectName_plain.
      reflexivity.
Qed.

End HandlerFacts.

(** ** The statements at work on the concrete deployment *)

Module Runs.

Import Scenario.

Local Abbreviation decoded body := (Unmarshal body zeroRequestPayload).1.

(** The request for two images, answered with two images, all stored. *)
Lemma all_uploads_ok_one_url_per_image_witness :
  let out := run (world (inl two_images) noon) (deployed "" (mkRequest body_cat)) [] in
  exists urls,
    out.1.1 = okResponse quote urls /\ length (elems urls) = 2%nat
    /\ length (uploads out.2) = 2%nat.
Proof.
  intros out.
  destruct (all_uploads_ok_one_url_per_image Unmarshal quote "bucket" "" "us-east-1"
              (world (inl two_images) noon) (mkRequest body_cat) (decoded body_cat)
              [] out.1.1 out.1.2 out.2
              imagenModel "A cat" (mkGenCfg 2 "SQUARE" "") two_images)
    as (urls & Hret & _ & _ & Hlen & Hups & _).
  - vm_compute. reflexivity.
  - vm_compute. discriminate.
  - vm_compute. reflexivity.
  - vm_compute. constructor.
  - vm_compute. repeat constructor.
  - exists urls. auto.
Defined.

(** C1 as claimed fails: the request asks for two images, the client
    succeeds with one, the upload is accepted, and the response lists one
    URL, not two. *)
Lemma url_count_differs_from_requested :
  let out := run (world (inl one_image) noon) (deployed "" (mkRequest body_cat)) [] in
  NumberOfImages (decoded body_cat) = 2
  /\ Prompt (decoded body_cat) <> ""
  /\ generations out.2 =
       [(imagenModel, "A cat", mkGenCfg 2 "SQUARE" "", inl one_image)]
  /\ Forall (fun u => u.2 = None) (uploads out.2)
  /\ out.1.1 =
       okResponse quote
         (Some ["https://bucket.s3.us-east-1.amazonaws.com/imagen_0_20250805T123456.png"])
  /\ StatusCode out.1.1.1 = 200
  /\ length ["https://bucket.s3.us-east-1.amazonaws.com/imagen_0_20250805T123456.png"]
       <> 2%nat.
Proof.
  intros out.
  split; [reflexivity|].
  split; [vm_compute; discriminate|].
  split; [vm_compute; reflexivity|].
  split; [vm_compute; repeat constructor|].
  split; [vm_compute; reflexivity|].
  split; [reflexivity|].
  simpl. discriminate.
Qed.

Lemma empty_prompt_rejected_without_calls_witness :
  let out := run (world (inl two_images) noon)
               (deployed "" (mkRequest body_empty_prompt)) [] in
  StatusCode out.1.1.1 = 400 /\ Body out.1.1.1 = "prompt is required"
  /\ out.1.1.2 = None
  /\ generations out.2 = [] /\ uploads out.2 = [] /\ out.2 = [] /\ out.1.2 = [].
Proof.
  intros out.
  apply (empty_prompt_rejected_without_calls Unmarshal quote "bucket" "" "us-east-1"
           (world (inl two_images) noon) (mkRequest body_empty_prompt)
           (decoded body_empty_prompt) [] out.1.1 out.1.2 out.2).
  - vm_compute. reflexivity.
  - vm_compute. reflexivity.
  - vm_compute. reflexivity.
Defined.

Lemma malformed_body_rejected_without_calls_witness :
  let out := run (world (inl two_images) noon)
               (deployed "" (mkRequest body_truncated)) [] in
  StatusCode out.1.1.1 = 400
  /\ Headers out.1.1.1 = {[ "Content-Type" := "text/plain" ]}
  /\ Body out.1.1.1 = "invalid JSON: " +:+ "unexpected end of JSON input"
  /\ out.1.1.2 = None
  /\ generations out.2 = [] /\ uploads out.2 = [] /\ out.2 = [] /\ out.1.2 = [].
Proof.
  intros out.
  apply (malformed_body_rejected_without_calls Unmarshal quote "bucket" "" "us-east-1"
           (world (inl two_images) noon) (mkRequest body_truncated)
           (decoded body_truncated) "unexpected end of JSON input"
           [] out.1.1 out.1.2 out.2).
  - vm_compute. reflexivity.
  - vm_compute. reflexivity.
Defined.

Lemma generation_failure_no_uploads_witness :
  let out := run (world (inr "429 quota exceeded") noon)
               (deployed "" (mkRequest body_cat)) [] in
  StatusCode out.1.1.1 = 500
  /\ Body out.1.1.1 = "image generation failed: " +:+ "429 quota exceeded"
  /\ out.1.1.2 = None
  /\ uploads out.2 = []
  /\ length (generations out.2) = 1%nat
  /\ out.2 = [EvGenerateImages imagenModel (Prompt (decoded body_cat))
                (generationConfig (withDefaults (decoded body_cat)))
                (inr "429 quota exceeded");
              EvPrintf ("GenAI error: " +:+ "429 quota exceeded")].
Proof.
  intros out.
  apply (generation_failure_no_uploads Unmarshal quote "bucket" "" "us-east-1"
           (world (inr "429 quota exceeded") noon) (mkRequest body_cat)
           (decoded body_cat) [] out.1.1 out.1.2 out.2
           imagenModel "A cat" (mkGenCfg 2 "SQUARE" "")).
  - vm_compute. reflexivity.
  - vm_compute. discriminate.
  - vm_compute. reflexivity.
  - vm_compute. constructor.
Defined.

(** The second upload is refused: the first object stays in the bucket. *)
Lemma upload_failure_aborts_after_partial_writes_witness :
  let out := run (world (inl two_images) noon) (deployed "" (mkRequest body_cat))
               [None; Some "AccessDenied"] in
  StatusCode out.1.1.1 = 500
  /\ Body out.1.1.1 = "failed to upload image: " +:+ "AccessDenied"
  /\ length (uploads out.2) = 2%nat.
Proof.
  intros out.
  destruct (upload_failure_aborts_after_partial_writes Unmarshal quote
              "bucket" "" "us-east-1"
              (world (inl two_images) noon) (mkRequest body_cat) (decoded body_cat)
              [None; Some "AccessDenied"] out.1.1 out.1.2 out.2
              1%nat (uploadOf "bucket" "" 1 (png Byte.x01) noon) "AccessDenied")
    as (Hstatus & _ & Hbody & _ & Hlen & _).
  - vm_compute. reflexivity.
  - vm_compute. discriminate.
  - vm_compute. reflexivity.
  - vm_compute. reflexivity.
  - auto.
Defined.

Lemma zero_images_null_list_witness :
  let out := run (world (inl no_images) noon) (deployed "" (mkRequest body_cat)) [] in
  uploads out.2 = []
  /\ StatusCode out.1.1.1 = 200
  /\ Headers out.1.1.1 = {[ "Content-Type" := "application/json" ]}
  /\ Body out.1.1.1 = "{" +:+ json.dquote +:+ "imageUrls" +:+ json.dquote +:+ ":null}"
  /\ out.1.1.2 = None.
Proof.
  intros out.
  apply (zero_images_null_list Unmarshal quote "bucket" "" "us-east-1"
           (world (inl no_images) noon) (mkRequest body_cat) (decoded body_cat)
           [] out.1.1 out.1.2 out.2
           imagenModel "A cat" (mkGenCfg 2 "SQUARE" "") no_images).
  - vm_compute. reflexivity.
  - vm_compute. discriminate.
  - vm_compute. reflexivity.
  - vm_compute. constructor.
  - reflexivity.
Defined.

(** Under the folder [generated-images] the second image of the
    scenario is stored as [generated-images/imagen_1_20250805T123456.png]. *)
Lemma object_key_is_joined_path_witness :
  let out := run (world (inl two_images) noon)
               (deployed "generated-images" (mkRequest body_cat)) [] in
  exists p res,
    uploads out.2 !! 1%nat = Some (p, res)
    /\ put_Key p = "generated-images" +:+ "/" +:+ objectName 1 noon
    /\ objectName 1 noon = "imagen_1_20250805T123456.png".
Proof.
  intros out.
  exists (uploadOf "bucket" "generated-images" 1 (png Byte.x01) noon), None.
  assert (uploads out.2 !! 1%nat =
            Some (uploadOf "bucket" "generated-images" 1 (png Byte.x01) noon, None))
    as Hup by (vm_compute; reflexivity).
  split; [exact Hup|].
  destruct (object_key_is_joined_path Unmarshal quote
              "bucket" "generated-images" "us-east-1"
              (world (inl two_images) noon) (mkRequest body_cat) (decoded body_cat)
              [] out.1.1 out.1.2 out.2 1%nat
              (uploadOf "bucket" "generated-images" 1 (png Byte.x01) noon) None)
    as (now & Hnow & _ & _ & _ & Hplain & _).
  - vm_compute. reflexivity.
  - vm_compute. discriminate.
  - vm_compute. reflexivity.
  - exact Hup.
  - assert (now = noon) as ->
      by (vm_compute in Hnow; injection Hnow as <-; reflexivity).
    split; [|vm_compute; reflexivity].
    apply (Hplain ["generated-images"]).
    + discriminate.
    + repeat constructor.
    + reflexivity.
Defined.

(** C6 as claimed fails for a folder prefix written with its trailing
    slash: the key has one slash after the folder, where the claimed form
    [{prefix}/imagen_{index}_{timestamp}.png] has two. *)
Lemma trailing_slash_prefix_key :
  let out := run (world (inl two_images) noon)
               (deployed "generated-images/" (mkRequest body_cat)) [] in
  exists p res,
    uploads out.2 !! 0%nat = Some (p, res)
    /\ objectName 0 noon = "imagen_0_20250805T123456.png"
    /\ put_Key p = "generated-images/imagen_0_20250805T123456.png"
    /\ put_Key p <> "generated-images/" +:+ "/" +:+ "imagen_0_20250805T123456.png".
Proof.
  intros out.
  exists (uploadOf "bucket" "generated-images/" 0 (png Byte.x00) noon), None.
  split; [vm_compute; reflexivity|].
  split; [vm_compute; reflexivity|].
  split; [vm_compute; reflexivity|].
  vm_compute. discriminate.
Qed.

Lemma public_url_layout_witness :
  let out := run (world (inl two_images) noon) (deployed "" (mkRequest body_cat)) [] in
  exists urls,
    out.1.1 = okResponse quote urls
    /\ elems urls !! 0%nat =
         Some ("https://bucket.s3.us-east-1.amazonaws.com/imagen_0_"
                 +:+ time.Format_20060102T150405 noon +:+ ".png").
Proof.
  intros out.
  destruct (public_url_layout Unmarshal quote "bucket" "" "us-east-1"
              (world (inl two_images) noon) (mkRequest body_cat) (decoded body_cat)
              [] out.1.1 out.1.2 out.2
              imagenModel "A cat" (mkGenCfg 2 "SQUARE" "") two_images)
    as (urls & Hret & _ & _ & Hfirst).
  - vm_compute. reflexivity.
  - vm_compute. discriminate.
  - vm_compute. reflexivity.
  - vm_compute. constructor.
  - vm_compute. repeat constructor.
  - exists urls. split; [exact Hret|].
    apply Hfirst; reflexivity.
Defined.

(** C7 as claimed fails twice.  In the URL of the scenario the region is
    followed by [.amazonaws.com], so no store domain [D] makes it an
    instance of [https://{bucket}.{D}.{region}/{key}]; and under a folder
    prefix the first URL is not the claimed
    [https://bucket.s3.us-east-1.amazonaws.com/imagen_0_{stamp}.png]. *)
Lemma url_is_no_instance_of_claimed_layout :
  let out := run (world (inl two_images) noon) (deployed "" (mkRequest body_cat)) [] in
  let out' := run (world (inl two_images) noon)
                (deployed "generated-images" (mkRequest body_cat)) [] in
  exists p res url,
    uploads out.2 !! 0%nat = Some (p, res)
    /\ out.1.1 =
         okResponse quote
           (Some [url; "https://bucket.s3.us-east-1.amazonaws.com/imagen_1_20250805T123456.png"])
    /\ url = "https://bucket.s3.us-east-1.amazonaws.com/imagen_0_20250805T123456.png"
    /\ (forall D : string,
          url <> "https://" +:+ "bucket" +:+ "." +:+ D +:+ "." +:+ "us-east-1"
                   +:+ "/" +:+ put_Key p)
    /\ out'.1.1 =
         okResponse quote
           (Some ["https://bucket.s3.us-east-1.amazonaws.com/generated-images/imagen_0_20250805T123456.png";
                  "https://bucket.s3.us-east-1.amazonaws.com/generated-images/imagen_1_20250805T123456.png"]).
Proof.
  intros out out'.
  exists (uploadOf "bucket" "" 0 (png Byte.x00) noon), None,
    "https://bucket.s3.us-east-1.amazonaws.com/imagen_0_20250805T123456.png".
  split; [vm_compute; reflexivity|].
  split; [vm_compute; reflexivity|].
  split; [reflexivity|].
  split; [|vm_compute; reflexivity].
  intros D Heq.
  replace (put_Key (uploadOf "bucket" "" 0 (png Byte.x00) noon))
    with "imagen_0_20250805T123456.png" in Heq by (vm_compute; reflexivity).
  apply (f_equal list_ascii_of_string) in Heq.
  rewrite !pathFacts.list_ascii_of_string_app in Heq.
  apply (f_equal (@rev ascii)) in Heq.
  rewrite !rev_app_distr in Heq. simpl in Heq.
  discriminate Heq.
Qed.

End Runs.

(** ** [path.Join] under any folder prefix *)

Module joinFacts.

Import path pathFacts.

Lemma string_of_list_ascii_app (a b : list ascii) :
  string_of_list_ascii (a ++ b) = string_of_list_ascii a +:+ string_of_list_ascii b.
Proof.
  induction a as [|c a IH]; [reflexivity|].
  simpl. rewrite IH, append_cons. reflexivity.
Qed.

Lemma plainl_nonempty (e : list ascii) : plainl e -> e <> [].
Proof. intros [_ He] ->. exact He. Qed.

(** One turn of the loop on a plain element, rooted or not. *)
Lemma Clean_loop_plain_turn (turns : nat) (rooted : bool)
    (e s' out : list ascii) (dotdot : nat) :
  plainl e ->
  ends_element s' = true ->
  Clean_loop (S turns) rooted (e ++ s') out dotdot =
    Clean_loop turns rooted s' (rev e ++ add_slash rooted out) dotdot.
Proof.
  intros [Hall Hdots] Hs.
  pose proof (copy_element_plain e s' (add_slash rooted out) Hall Hs) as Hcopy.
  destruct e as [|c e1]; [contradiction|].
  inversion Hall as [|? ? Hc Hall1]; subst.
  change (Clean_loop (S turns) rooted ((c :: e1) ++ s') out dotdot)
    with (Clean_loop (S turns) rooted (c :: (e1 ++ s')) out dotdot).
  cbn [Clean_loop]. rewrite Hc.
  assert (is_dot c && ends_element (e1 ++ s') = false) as ->.
  { destruct (is_dot c) eqn:Hd; [|reflexivity]. simpl.
    specialize (Hdots eq_refl). destruct e1 as [|c1 e2]; [contradiction|].
    inversion Hall1; subst. simpl. assumption. }
  assert (is_dot c && match e1 ++ s' with
                      | c1 :: s2 => is_dot c1 && ends_element s2
                      | [] => false
                      end = false) as ->.
  { destruct (is_dot c) eqn:Hd; [|reflexivity]. simpl.
    specialize (Hdots eq_refl). destruct e1 as [|c1 e2]; [contradiction|].
    simpl. destruct (is_dot c1) eqn:Hd1; [|reflexivity]. simpl.
    specialize (Hdots eq_refl). destruct e2 as [|c2 e3]; [contradiction|].
    inversion Hall1 as [|? ? _ Hall2]; subst. inversion Hall2; subst.
    simpl. assumption. }
  change (c :: e1 ++ s') with ((c :: e1) ++ s').
  fold (add_slash rooted out). rewrite Hcopy. reflexivity.
Qed.

Lemma Clean_loop_done (turns : nat) (rooted : bool) (out : list ascii) (dotdot : nat) :
  Clean_loop turns rooted [] out dotdot = out.
Proof. destruct turns; reflexivity. Qed.

(** What the loop sees ahead does not depend on what follows the slash. *)
Lemma ends_element_before_slash (s e : list ascii) :
  ends_element (s ++ slash :: e) = ends_element (s ++ [slash]).
Proof. destruct s; reflexivity. Qed.

Lemma dotdot_before_slash (s e : list ascii) :
  match s ++ slash :: e with
  | c1 :: s2 => is_dot c1 && ends_element s2
  | [] => false
  end =
  match s ++ [slash] with
  | c1 :: s2 => is_dot c1 && ends_element s2
  | [] => false
  end.
Proof.
  destruct s as [|c1 s2]; [reflexivity|].
  simpl. rewrite ends_element_before_slash. reflexivity.
Qed.

Lemma copy_element_before_slash (s e out : list ascii) :
  copy_element (s ++ slash :: e) out =
    ((copy_element s out).1 ++ slash :: e, (copy_element s out).2).
Proof.
  revert out. induction s as [|c s IH]; intros out; [reflexivity|].
  simpl. destruct (is_slash c); [reflexivity|]. apply IH.
Qed.

(** The loop on a path that ends with a slash and a plain element: the
    element is copied behind whatever the loop makes of the part before
    it. *)
Lemma Clean_loop_last_element (n : nat) :
  forall s rooted out dotdot e t1 t2,
    (length s <= n)%nat ->
    plainl e ->
    (length s + S (length e) <= t1)%nat ->
    (S (length s) <= t2)%nat ->
    Clean_loop t1 rooted (s ++ slash :: e) out dotdot =
      rev e ++ add_slash rooted (Clean_loop t2 rooted (s ++ [slash]) out dotdot).
Proof.
  assert (forall rooted out dotdot e t1 t2,
            plainl e -> (S (length e) <= t1)%nat -> (1 <= t2)%nat ->
            Clean_loop t1 rooted (slash :: e) out dotdot =
              rev e ++ add_slash rooted (Clean_loop t2 rooted [slash] out dotdot)) as Hbase.
  { intros rooted out dotdot e t1 t2 He H1 H2.
    pose proof (plainl_nonempty e He) as Hne.
    destruct t1 as [|[|t1]]; [lia|destruct e; [contradiction|simpl in H1; lia]|].
    destruct t2 as [|t2]; [lia|].
    rewrite !Clean_loop_slash, Clean_loop_done.
    rewrite <- (app_nil_r e) at 1.
    rewrite Clean_loop_plain_turn by (auto; reflexivity).
    apply Clean_loop_done. }
  induction n as [|n IH]; intros s rooted out dotdot e t1 t2 Hs He H1 H2.
  - destruct s; [|simpl in Hs; lia]. apply Hbase; auto.
  - destruct s as [|c s1]; [apply Hbase; auto|].
    simpl in Hs, H1, H2.
    destruct t1 as [|t1]; [lia|]. destruct t2 as [|t2]; [lia|].
    change ((c :: s1) ++ slash :: e) with (c :: (s1 ++ slash :: e)).
    change ((c :: s1) ++ [slash]) with (c :: (s1 ++ [slash])).
    cbn [Clean_loop].
    rewrite (ends_element_before_slash s1 e), (dotdot_before_slash s1 e).
    destruct (is_slash c) eqn:Hsl; [apply IH; auto; lia|].
    destruct (is_dot c && ends_element (s1 ++ [slash])); [apply IH; auto; lia|].
    destruct (is_dot c && match s1 ++ [slash] with
                          | c1 :: s2 => is_dot c1 && ends_element s2
                          | [] => false
                          end) eqn:Hdd.
    + destruct s1 as [|c1 s2].
      { simpl in Hdd. rewrite andb_false_r in Hdd. discriminate. }
      change (tail ((c1 :: s2) ++ slash :: e)) with (s2 ++ slash :: e).
      change (tail ((c1 :: s2) ++ [slash])) with (s2 ++ [slash]).
      simpl in Hs, H1, H2.
      destruct (dotdot <? length out)%nat; [apply IH; auto; lia|].
      destruct (negb rooted); apply IH; auto; lia.
    + change (c :: s1 ++ slash :: e) with ((c :: s1) ++ slash :: e).
      change (c :: s1 ++ [slash]) with ((c :: s1) ++ [slash]).
      rewrite !copy_element_before_slash.
      fold (add_slash rooted out).
      pose proof (copy_element_length s1 (c :: add_slash rooted out)) as Hlen.
      assert (copy_element (c :: s1) (add_slash rooted out) =
              copy_element s1 (c :: add_slash rooted out)) as Hc
        by (simpl; rewrite Hsl; reflexivity).
      rewrite Hc. apply IH; auto; lia.
Qed.

(** Whatever the first element, [Join] with a plain last element returns
    a directory part that depends on the first element alone, followed by
    the last element. *)
Lemma Join_dir (prefix : string) :
  exists dir, forall name, plain name = true -> Join [prefix; name] = dir +:+ name.
Proof.
  destruct (list_ascii_of_string prefix) as [|c s1] eqn:Hp.
  - exists "". intros name Hname.
    assert (prefix = "") as ->.
    { rewrite <- (string_of_list_ascii_of_string prefix), Hp. reflexivity. }
    rewrite Join_no_prefix by exact Hname. reflexivity.
  - exists (string_of_list_ascii
              (rev (add_slash (is_slash c)
                      (if is_slash c
                       then Clean_loop (S (length s1)) true (s1 ++ [slash]) [slash] 1
                       else Clean_loop (S (S (length s1))) false
                              ((c :: s1) ++ [slash]) [] 0)))).
    intros name Hname.
    pose proof (plain_plainl name Hname) as He.
    rewrite Join_nonempty_first by (intros ->; discriminate).
    unfold Clean.
    rewrite !list_ascii_of_string_app, Hp.
    change (list_ascii_of_string "/") with [slash].
    change ((c :: s1) ++ [slash] ++ list_ascii_of_string name)
      with (c :: (s1 ++ slash :: list_ascii_of_string name)).
    cbv beta iota zeta.
    assert (forall base : list ascii,
              match rev (list_ascii_of_string name) ++ base with
              | [] => "."
              | _ :: _ =>
                  string_of_list_ascii (rev (rev (list_ascii_of_string name) ++ base))
              end = string_of_list_ascii (rev base) +:+ name) as Hout.
    { intros base.
      destruct (rev (list_ascii_of_string name) ++ base) as [|x l] eqn:Hrev.
      - apply app_eq_nil in Hrev as [Hrev _].
        apply (f_equal (@rev ascii)) in Hrev. rewrite rev_involutive in Hrev.
        destruct (plainl_nonempty _ He Hrev).
      - rewrite <- Hrev, rev_app_distr, rev_involutive, string_of_list_ascii_app,
          string_of_list_ascii_of_string. reflexivity. }
    destruct (is_slash c).
    + rewrite (Clean_loop_last_element (length s1) s1 true [slash] 1
                 (list_ascii_of_string name) _ (S (length s1)))
        by (auto; rewrite ?length_app; simpl; lia).
      apply Hout.
    + change (c :: s1 ++ slash :: list_ascii_of_string name)
        with ((c :: s1) ++ slash :: list_ascii_of_string name).
      rewrite (Clean_loop_last_element (length (c :: s1)) (c :: s1) false [] 0
                 (list_ascii_of_string name) _ (S (S (length s1))))
        by (auto; rewrite ?length_app; simpl; lia).
      apply Hout.
Qed.

End joinFacts.
(** ** Object names and keys *)

Module nameFacts.

Import path time pathFacts timeFacts joinFacts.

Lemma pretty_N_go_no_underscore (x : N) (s : string) :
  forallb not_underscore (list_ascii_of_string s) = true ->
  forallb not_underscore (list_ascii_of_string (pretty_N_go x s)) = true.
Proof.
  revert s. induction (N.lt_wf_0 x) as [x _ IH]; intros s Hs.
  assert (x = 0 \/ 0 < x)%N as [->|Hpos] by lia.
  - rewrite pretty_N_go_0. exact Hs.
  - rewrite pretty_N_go_step by exact Hpos. apply IH.
    + apply N.div_lt; [exact Hpos|reflexivity].
    + simpl. rewrite Hs, andb_true_r.
      unfold pretty_N_char. repeat case_match; reflexivity.
Qed.

Lemma itoa_no_underscore (n : nat) :
  forallb not_underscore (list_ascii_of_string (itoa n)) = true.
Proof.
  unfold itoa, pretty, pretty_nat, pretty, pretty_N. case_decide; [reflexivity|].
  apply pretty_N_go_no_underscore. reflexivity.
Qed.

(** Two strings without an underscore that are followed by one are equal
    when the whole strings are. *)
Lemma before_underscore (a b x y : string) :
  forallb not_underscore (list_ascii_of_string a) = true ->
  forallb not_underscore (list_ascii_of_string b) = true ->
  a +:+ "_" +:+ x = b +:+ "_" +:+ y ->
  a = b.
Proof.
  revert b. induction a as [|c a IH]; intros [|d b] Ha Hb Heq.
  - reflexivity.
  - rewrite append_nil, append_cons in Heq. injection Heq as <- _.
    simpl in Hb. discriminate.
  - rewrite append_nil, append_cons in Heq. injection Heq as -> _.
    simpl in Ha. discriminate.
  - rewrite !append_cons in Heq. injection Heq as -> Heq.
    simpl in Ha, Hb. apply andb_true_iff in Ha as [_ Ha].
    apply andb_true_iff in Hb as [_ Hb].
    f_equal. apply IH; assumption.
Qed.

(** The object name tells the turn. *)
Lemma objectName_inj (i j : nat) (t t' : Time) :
  objectName i t = objectName j t' -> i = j.
Proof.
  unfold objectName. intros Heq.
  apply (inj (String.append "imagen_")) in Heq.
  apply before_underscore in Heq; auto using itoa_no_underscore.
  unfold itoa in Heq. apply (inj pretty) in Heq. exact Heq.
Qed.

(** So does the key, under any folder prefix. *)
Lemma objectKey_inj (folderPrefix : string) (i j : nat) (t t' : Time) :
  objectKey folderPrefix i t = objectKey folderPrefix j t' -> i = j.
Proof.
  unfold objectKey. destruct (Join_dir folderPrefix) as [dir Hdir].
  rewrite !Hdir by apply objectName_plain.
  intros Heq. apply (inj (String.append dir)) in Heq.
  eapply objectName_inj. exact Heq.
Qed.

End nameFacts.

(** ** Every run of the handler *)

Section EveryRun.

Variable json_Unmarshal : string -> requestPayload -> requestPayload * option error.
Variable json_quote : string -> string.
Variables bucketName folderPrefix region : string.

Local Abbreviation handler :=
  (handler json_Unmarshal json_quote bucketName folderPrefix region).
Local Abbreviation LoopRun := (LoopRun bucketName folderPrefix region).
Local Abbreviation uploadOf := (uploadOf bucketName folderPrefix).
Local Abbreviation objectKey := (objectKey folderPrefix).
Local Abbreviation publicURL := (publicURL bucketName region).
Local Abbreviation okResponse := (okResponse json_quote).

(** A run is the rejection of the request, without any call, or the run
    of a request that decoded with a prompt. *)
Lemma handler_run_cases {W : Type} (env : Env W) req w ret w' tr :
  run env (handler req) w = (ret, w', tr) ->
  (tr = [] /\ w' = w /\ StatusCode ret.1 = 400)
  \/ exists in_,
       json_Unmarshal (req_Body req) zeroRequestPayload = (in_, None)
       /\ Prompt in_ <> "".
Proof.
  intros Hrun.
  destruct (json_Unmarshal (req_Body req) zeroRequestPayload) as [in_ [err|]] eqn:Hdec.
  - left. unfold handler in Hrun. rewrite Hdec in Hrun. simpl in Hrun.
    injection Hrun as <- <- <-. auto.
  - destruct (decide (Prompt in_ = "")) as [Hp|Hp].
    + left. unfold handler in Hrun. rewrite Hdec in Hrun.
      destruct (decide (Prompt in_ = "")) as [_|]; [|contradiction].
      simpl in Hrun. injection Hrun as <- <- <-. auto.
    + right. exists in_. auto.
Qed.

(** The three ways a run of a request with a prompt can end. *)
Lemma handler_run_outcomes {W : Type} (env : Env W) req in_ w ret w' tr :
  json_Unmarshal (req_Body req) zeroRequestPayload = (in_, None) ->
  Prompt in_ <> "" ->
  run env (handler req) w = (ret, w', tr) ->
  let call := EvGenerateImages imagenModel (Prompt in_)
                (generationConfig (withDefaults in_)) in
  (exists err,
     tr = [call (inr err); EvPrintf ("GenAI error: " +:+ err)]
     /\ ret = serverError ("image generation failed: " +:+ err))
  \/ (exists genResp tl early,
        tr = call (inl genResp) :: tl
        /\ LoopRun 0 (GeneratedImages genResp) None tl (inl early)
        /\ ret = early)
  \/ (exists genResp tl urls,
        tr = call (inl genResp) :: tl
        /\ LoopRun 0 (GeneratedImages genResp) None tl (inr urls)
        /\ ret = okResponse urls).
Proof.
  intros Hdec Hprompt Hrun call.
  destruct (handler_run_valid _ _ _ _ _ env _ _ _ _ _ _ Hdec Hprompt Hrun)
    as (res & tl & -> & Hres).
  destruct res as [genResp|err].
  - destruct Hres as ([early|urls] & Hloop & ->).
    + right. left. exists genResp, tl, early. auto.
    + right. right. exists genResp, tl, urls. auto.
  - destruct Hres as (-> & ->). left. exists err. auto.
Qed.

(** The log lines of the loop: one when it returns early, none when it
    runs to its end. *)
Lemma LoopRun_logs idx imgs urls tr r :
  LoopRun idx imgs urls tr r ->
  match r with
  | inl _ => exists line, logs tr = [line]
  | inr _ => logs tr = []
  end.
Proof.
  induction 1 as [idx urls|idx img imgs urls now err|idx img imgs urls now tr r _ IH].
  - reflexivity.
  - eexists. reflexivity.
  - exact IH.
Qed.

(** The keys of the loop's uploads are pairwise distinct. *)
Lemma LoopRun_keys_NoDup idx imgs urls tr r :
  LoopRun idx imgs urls tr r ->
  NoDup (map (fun u => put_Key u.1) (uploads tr)).
Proof.
  intros Hloop. apply NoDup_alt. intros i j key Hi Hj.
  apply list_lookup_fmap_Some in Hi as ([pi ri] & -> & Hi).
  apply list_lookup_fmap_Some in Hj as ([pj rj] & Hkey & Hj).
  destruct (LoopRun_upload_at _ _ _ _ _ _ _ _ Hloop _ _ _ Hi) as (imgi & ti & _ & _ & Hpi).
  destruct (LoopRun_upload_at _ _ _ _ _ _ _ _ Hloop _ _ _ Hj) as (imgj & tj & _ & _ & Hpj).
  rewrite Hpi, Hpj in Hkey. simpl in Hkey.
  apply nameFacts.objectKey_inj in Hkey. lia.
Qed.

(** The four ways a run can end, with what each leaves in the trace. *)
Lemma handler_run_summary {W : Type} (env : Env W) req w ret w' tr :
  run env (handler req) w = (ret, w', tr) ->
  (tr = [] /\ w' = w /\ StatusCode ret.1 = 400)
  \/ (exists m pr c err line,
        tr = [EvGenerateImages m pr c (inr err); EvPrintf line]
        /\ ret = serverError ("image generation failed: " +:+ err))
  \/ (exists m pr c genResp tl err,
        tr = EvGenerateImages m pr c (inl genResp) :: tl
        /\ LoopRun 0 (GeneratedImages genResp) None tl
             (inl (serverError ("failed to upload image: " +:+ err)))
        /\ ret = serverError ("failed to upload image: " +:+ err))
  \/ (exists m pr c genResp tl urls,
        tr = EvGenerateImages m pr c (inl genResp) :: tl
        /\ LoopRun 0 (GeneratedImages genResp) None tl (inr urls)
        /\ ret = okResponse urls).
Proof.
  intros Hrun.
  destruct (handler_run_cases env _ _ _ _ _ Hrun) as [Hbad|(in_ & Hdec & Hprompt)];
    [auto|].
  destruct (handler_run_outcomes env _ _ _ _ _ _ Hdec Hprompt Hrun)
    as [(err & -> & ->)|[(genResp & tl & early & -> & Hloop & ->)
                        |(genResp & tl & urls & -> & Hloop & ->)]].
  - right. left. repeat eexists.
  - right. right. left.
    destruct (LoopRun_aborted _ _ _ _ _ _ _ _ Hloop) as (_ & _ & err & _ & _ & _ & ->).
    repeat eexists. exact Hloop.
  - right. right. right. repeat eexists. exact Hloop.
Qed.

(** X1: a response has status 400 exactly when the run made no call at
    all (no generation, no clock reading, no upload, no log line), and
    such a run leaves the world as it found it. *)
Theorem bad_request_iff_no_calls {W : Type} (env : Env W) req w :
  let out := run env (handler req) w in
  (StatusCode out.1.1.1 = 400 <-> out.2 = [])
  /\ (out.2 = [] -> out.1.2 = w).
Proof.
  destruct (run env (handler req) w) as [[ret w'] tr] eqn:Hrun. simpl.
  destruct (handler_run_summary env _ _ _ _ _ Hrun)
    as [(-> & -> & Hst)
       |[(m & pr & c & err & line & -> & ->)
        |[(m & pr & c & genResp & tl & err & -> & _ & ->)
         |(m & pr & c & genResp & tl & urls & -> & _ & ->)]]];
    simpl; (split; [split|]); intros; try discriminate; auto.
Qed.

(** X2: a response has status 200 exactly when the generation call
    succeeded and S3 accepted every upload of the run. *)
Theorem status_ok_iff_all_accepted {W : Type} (env : Env W) req w :
  let out := run env (handler req) w in
  StatusCode out.1.1.1 = 200
  <-> (exists m pr c genResp, generations out.2 = [(m, pr, c, inl genResp)])
      /\ Forall (fun u => u.2 = None) (uploads out.2).
Proof.
  destruct (run env (handler req) w) as [[ret w'] tr] eqn:Hrun. simpl.
  destruct (handler_run_summary env _ _ _ _ _ Hrun)
    as [(-> & -> & Hst)
       |[(m & pr & c & err & line & -> & ->)
        |[(m & pr & c & genResp & tl & err & -> & Hloop & ->)
         |(m & pr & c & genResp & tl & urls & -> & Hloop & ->)]]].
  - rewrite Hst. split; [discriminate|]. intros [(? & ? & ? & ? & Hg) _]. discriminate.
  - simpl. split; [discriminate|]. intros [(? & ? & ? & ? & Hg) _]. discriminate.
  - split; [simpl; discriminate|]. intros [_ Hok].
    destruct (valid_trace_calls _ _ _ _ _ _ m pr c Hloop) as (_ & Hu & _).
    rewrite Hu in Hok.
    destruct (LoopRun_outcome _ _ _ _ _ _ _ _ Hloop) as (ups & p & err' & Hups & _).
    rewrite Hups in Hok. apply Forall_app in Hok as [_ Hlast].
    inversion Hlast as [|? ? Hhd _]. discriminate.
  - split; [|reflexivity]. intros _.
    destruct (valid_trace_calls _ _ _ _ _ _ m pr c Hloop) as (Hg & Hu & _).
    split; [eauto|]. rewrite Hu. apply (LoopRun_outcome _ _ _ _ _ _ _ _ Hloop).
Qed.

(** X3: a run logs one line when it answers with status 500 and none
    otherwise. *)
Theorem one_log_line_iff_server_error {W : Type} (env : Env W) req w :
  let out := run env (handler req) w in
  (StatusCode out.1.1.1 = 500 <-> exists line, logs out.2 = [line])
  /\ (StatusCode out.1.1.1 <> 500 <-> logs out.2 = []).
Proof.
  destruct (run env (handler req) w) as [[ret w'] tr] eqn:Hrun. simpl.
  destruct (handler_run_summary env _ _ _ _ _ Hrun)
    as [(-> & -> & Hst)
       |[(m & pr & c & err & line & -> & ->)
        |[(m & pr & c & genResp & tl & err & -> & Hloop & ->)
         |(m & pr & c & genResp & tl & urls & -> & Hloop & ->)]]].
  - rewrite Hst. simpl. repeat split; try discriminate; auto.
    intros [line Hl]. discriminate.
  - simpl. repeat split; eauto; try discriminate. intros Hne. contradiction.
  - apply LoopRun_logs in Hloop as [line Hl].
    change (logs (EvGenerateImages m pr c (inl genResp) :: tl)) with (logs tl).
    rewrite Hl. simpl. repeat split; eauto; try discriminate. intros Hne. contradiction.
  - apply LoopRun_logs in Hloop.
    change (logs (EvGenerateImages m pr c (inl genResp) :: tl)) with (logs tl).
    rewrite Hloop. simpl. repeat split; try discriminate; auto.
    intros [line Hl]. discriminate.
Qed.

(** The payload after the defaults, field by field. *)
Lemma withDefaults_fields (in_ : requestPayload) :
  NumberOfImages (withDefaults in_) = Z.max 1 (NumberOfImages in_)
  /\ AspectRatio (withDefaults in_) =
       (if decide (AspectRatio in_ = "") then "SQUARE" else AspectRatio in_)
  /\ PersonGeneration (withDefaults in_) = PersonGeneration in_
  /\ Prompt (withDefaults in_) = Prompt in_.
Proof.
  unfold withDefaults.
  destruct (NumberOfImages in_ <=? 0) eqn:Hn;
    [apply Z.leb_le in Hn|apply Z.leb_gt in Hn]; simpl;
    destruct (decide (AspectRatio in_ = "")); simpl;
    repeat split; lia.
Qed.

(** The configuration of the generation call, field by field. *)
Lemma generationConfig_fields (in_ : requestPayload) :
  generationConfig in_ =
    {| cfg_NumberOfImages := NumberOfImages in_;
       cfg_AspectRatio := AspectRatio in_;
       cfg_PersonGeneration := PersonGeneration in_ |}.
Proof.
  unfold generationConfig.
  destruct (decide (PersonGeneration in_ <> "")) as [|Hp]; [reflexivity|].
  simpl. f_equal.
  destruct (decide (PersonGeneration in_ = "")) as [Heq|Hne];
    [symmetry; exact Heq|contradiction].
Qed.

(** X4: in every run the GenAI client is called at most once, and before
    anything else; after it the clock is read exactly once per upload,
    there are at most as many uploads as images returned, and none when the
    generation failed. *)
Theorem calls_in_order {W : Type} (env : Env W) req w :
  let out := run env (handler req) w in
  out.2 = []
  \/ exists m pr c res tl,
       out.2 = EvGenerateImages m pr c res :: tl
       /\ generations tl = []
       /\ length (clock tl) = length (uploads tl)
       /\ match res with
          | inl genResp => (length (uploads tl) <= length (GeneratedImages genResp))%nat
          | inr _ => uploads tl = []
          end.
Proof.
  destruct (run env (handler req) w) as [[ret w'] tr] eqn:Hrun. simpl.
  destruct (handler_run_summary env _ _ _ _ _ Hrun)
    as [(-> & _)
       |[(m & pr & c & err & line & -> & _)
        |[(m & pr & c & genResp & tl & err & -> & Hloop & _)
         |(m & pr & c & genResp & tl & urls & -> & Hloop & _)]]].
  - left. reflexivity.
  - right. exists m, pr, c, (inr err), [EvPrintf line]. repeat split.
  - right. exists m, pr, c, (inl genResp), tl. split; [reflexivity|].
    apply (LoopRun_calls _ _ _ _ _ _ _ _ Hloop).
  - right. exists m, pr, c, (inl genResp), tl. split; [reflexivity|].
    apply (LoopRun_calls _ _ _ _ _ _ _ _ Hloop).
Qed.

(** X5: whatever the request, a generation call names the Imagen 4 model
    and carries a non-empty prompt, a count of at least one and a
    non-empty aspect ratio. *)
Theorem generation_request_invariant {W : Type} (env : Env W) req w :
  Forall (fun g =>
            g.1.1.1 = "imagen-4.0-generate-preview-06-06"
            /\ g.1.1.2 <> ""
            /\ 1 <= cfg_NumberOfImages g.1.2
            /\ cfg_AspectRatio g.1.2 <> "")
    (generations (run env (handler req) w).2).
Proof.
  destruct (run env (handler req) w) as [[ret w'] tr] eqn:Hrun. simpl.
  destruct (handler_run_cases env _ _ _ _ _ Hrun) as [(-> & _)|(in_ & Hdec & Hprompt)];
    [constructor|].
  assert (generations tr =
          [(imagenModel, Prompt in_, generationConfig (withDefaults in_),
            match tr with
            | EvGenerateImages _ _ _ res :: _ => res
            | _ => inr ""
            end)]) as ->.
  { destruct (handler_run_outcomes env _ _ _ _ _ _ Hdec Hprompt Hrun)
      as [(err & -> & _)|[(genResp & tl & early & -> & Hloop & _)
                         |(genResp & tl & urls & -> & Hloop & _)]];
      [reflexivity| |];
      apply (valid_trace_calls _ _ _ _ _ _ _ _ _ Hloop). }
  constructor; [|constructor]. simpl.
  rewrite generationConfig_fields. simpl.
  destruct (withDefaults_fields in_) as (-> & -> & _).
  repeat split; [exact Hprompt|lia|].
  destruct (decide (AspectRatio in_ = "")); [discriminate|assumption].
Qed.

(** X6: the generation call of a request with a prompt passes the prompt
    and the person-generation policy as they came, the count raised to 1
    when it is zero or negative, and the aspect ratio with [SQUARE] in
    place of an empty one. *)
Theorem generation_request_defaults {W : Type} (env : Env W) req in_ w ret w' tr :
  json_Unmarshal (req_Body req) zeroRequestPayload = (in_, None) ->
  Prompt in_ <> "" ->
  run env (handler req) w = (ret, w', tr) ->
  exists res,
    generations tr =
      [("imagen-4.0-generate-preview-06-06", Prompt in_,
        {| cfg_NumberOfImages := Z.max 1 (NumberOfImages in_);
           cfg_AspectRatio :=
             if decide (AspectRatio in_ = "") then "SQUARE" else AspectRatio in_;
           cfg_PersonGeneration := PersonGeneration in_ |},
        res)].
Proof.
  intros Hdec Hprompt Hrun.
  assert (generationConfig (withDefaults in_) =
          {| cfg_NumberOfImages := Z.max 1 (NumberOfImages in_);
             cfg_AspectRatio :=
               if decide (AspectRatio in_ = "") then "SQUARE" else AspectRatio in_;
             cfg_PersonGeneration := PersonGeneration in_ |}) as Hcfg.
  { rewrite generationConfig_fields.
    destruct (withDefaults_fields in_) as (-> & -> & -> & _). reflexivity. }
  destruct (handler_run_outcomes env _ _ _ _ _ _ Hdec Hprompt Hrun)
    as [(err & -> & _)|[(genResp & tl & early & -> & Hloop & _)
                       |(genResp & tl & urls & -> & Hloop & _)]].
  - exists (inr err). rewrite <- Hcfg. reflexivity.
  - exists (inl genResp). rewrite <- Hcfg.
    apply (valid_trace_calls _ _ _ _ _ _ _ _ _ Hloop).
  - exists (inl genResp). rewrite <- Hcfg.
    apply (valid_trace_calls _ _ _ _ _ _ _ _ _ Hloop).
Qed.

Lemma requestPayload_ext (a b : requestPayload) :
  NumberOfImages a = NumberOfImages b -> AspectRatio a = AspectRatio b ->
  PersonGeneration a = PersonGeneration b -> Prompt a = Prompt b ->
  a = b.
Proof. destruct a, b. simpl. congruence. Qed.

(** X7: the defaults are idempotent, and they leave a payload as it is
    exactly when its count is at least one and its aspect ratio is not
    empty. *)
Theorem withDefaults_idempotent (in_ : requestPayload) :
  withDefaults (withDefaults in_) = withDefaults in_
  /\ (withDefaults in_ = in_ <-> 1 <= NumberOfImages in_ /\ AspectRatio in_ <> "").
Proof.
  destruct (withDefaults_fields in_) as (Hn & Ha & Hpg & Hpr).
  destruct (withDefaults_fields (withDefaults in_)) as (Hn' & Ha' & Hpg' & Hpr').
  split.
  - apply requestPayload_ext; try congruence.
    + rewrite Hn', Hn. lia.
    + rewrite Ha', Ha.
      destruct (decide (AspectRatio in_ = "")) as [He|Hne].
      * destruct (decide ("SQUARE" = "")); [discriminate|reflexivity].
      * destruct (decide (AspectRatio in_ = "")); [contradiction|reflexivity].
  - split.
    + intros Heq. rewrite Heq in Hn, Ha. split; [lia|].
      intros He. rewrite He in Ha.
      destruct (decide ("" = "")); [discriminate|congruence].
    + intros [H1 Hne]. apply requestPayload_ext; try congruence.
      * rewrite Hn. lia.
      * rewrite Ha. destruct (decide (AspectRatio in_ = "")); [contradiction|reflexivity].
Qed.

Lemma publicURL_inj (k1 k2 : string) : publicURL k1 = publicURL k2 -> k1 = k2.
Proof.
  unfold publicURL. intros Heq.
  apply (inj (String.append "https://")) in Heq.
  apply (inj (String.append bucketName)) in Heq.
  apply (inj (String.append ".s3.")) in Heq.
  apply (inj (String.append region)) in Heq.
  apply (inj (String.append ".amazonaws.com/")) in Heq.
  exact Heq.
Qed.

(** X8: whatever the request and the outcome, every upload of a run goes
    to the configured bucket with content type [image/png], and the [j]-th
    upload carries the bytes of the [j]-th image of the generation
    response, unchanged. *)
Theorem every_upload_stores_its_image {W : Type} (env : Env W)
    req w ret w' tr j p res :
  run env (handler req) w = (ret, w', tr) ->
  uploads tr !! j = Some (p, res) ->
  put_Bucket p = bucketName
  /\ put_ContentType p = "image/png"
  /\ exists m pr c genResp img,
       generations tr = [(m, pr, c, inl genResp)]
       /\ GeneratedImages genResp !! j = Some img
       /\ put_Body p = ImageBytes (Image img).
Proof.
  intros Hrun Hj.
  assert (forall m pr c genResp tl r,
            tr = EvGenerateImages m pr c (inl genResp) :: tl ->
            LoopRun 0 (GeneratedImages genResp) None tl r ->
            put_Bucket p = bucketName
            /\ put_ContentType p = "image/png"
            /\ exists m pr c genResp img,
                 generations tr = [(m, pr, c, inl genResp)]
                 /\ GeneratedImages genResp !! j = Some img
                 /\ put_Body p = ImageBytes (Image img)) as Hloop.
  { intros m pr c genResp tl r -> Hloop.
    destruct (valid_trace_calls _ _ _ _ _ _ m pr c Hloop) as (Hg & Hu & _).
    rewrite Hu in Hj.
    destruct (LoopRun_upload_at _ _ _ _ _ _ _ _ Hloop _ _ _ Hj)
      as (img & now & Himg & _ & ->).
    split; [reflexivity|]. split; [reflexivity|].
    exists m, pr, c, genResp, img. auto. }
  destruct (handler_run_summary env _ _ _ _ _ Hrun)
    as [(-> & _)
       |[(m & pr & c & err & line & -> & _)
        |[(m & pr & c & genResp & tl & err & Htr & Hl & _)
         |(m & pr & c & genResp & tl & urls & Htr & Hl & _)]]].
  - discriminate.
  - discriminate.
  - eapply Hloop; eassumption.
  - eapply Hloop; eassumption.
Qed.

(** X9: within one run no two uploads use the same key, whatever the
    folder prefix and the clock: an image never overwrites another image
    of its own request. *)
Theorem upload_keys_pairwise_distinct {W : Type} (env : Env W) req w :
  NoDup (map (fun u => put_Key u.1) (uploads (run env (handler req) w).2)).
Proof.
  destruct (run env (handler req) w) as [[ret w'] tr] eqn:Hrun. simpl.
  destruct (handler_run_summary env _ _ _ _ _ Hrun)
    as [(-> & _)
       |[(m & pr & c & err & line & -> & _)
        |[(m & pr & c & genResp & tl & err & -> & Hl & _)
         |(m & pr & c & genResp & tl & urls & -> & Hl & _)]]].
  - constructor.
  - constructor.
  - change (uploads (EvGenerateImages m pr c (inl genResp) :: tl)) with (uploads tl).
    eapply LoopRun_keys_NoDup. exact Hl.
  - change (uploads (EvGenerateImages m pr c (inl genResp) :: tl)) with (uploads tl).
    eapply LoopRun_keys_NoDup. exact Hl.
Qed.

(** X10: a response with status 200 lists the public URLs of the keys of
    the run's uploads, one per upload and in their order, and no URL
    twice. *)
Theorem ok_response_lists_distinct_urls {W : Type} (env : Env W)
    req w ret w' tr :
  run env (handler req) w = (ret, w', tr) ->
  StatusCode ret.1 = 200 ->
  exists urls,
    ret = okResponse urls
    /\ elems urls = map (fun u => publicURL (put_Key u.1)) (uploads tr)
    /\ NoDup (elems urls).
Proof.
  intros Hrun Hst.
  destruct (handler_run_summary env _ _ _ _ _ Hrun)
    as [(-> & _ & Hbad)
       |[(m & pr & c & err & line & -> & ->)
        |[(m & pr & c & genResp & tl & err & -> & Hl & ->)
         |(m & pr & c & genResp & tl & urls & -> & Hl & ->)]]].
  - rewrite Hbad in Hst. discriminate.
  - discriminate.
  - discriminate.
  - exists urls. split; [reflexivity|].
    change (uploads (EvGenerateImages m pr c (inl genResp) :: tl)) with (uploads tl).
    destruct (LoopRun_completed _ _ _ _ _ _ _ _ Hl) as (_ & _ & Hurls & _).
    simpl in Hurls. split; [exact Hurls|].
    rewrite Hurls, <- (map_map (fun u : PutObjectInput * option error => put_Key u.1) publicURL).
    apply NoDup_fmap_2.
    + intros k1 k2. apply publicURL_inj.
    + eapply LoopRun_keys_NoDup. exact Hl.
Qed.

(** X11: in a response with status 200 the list of URLs is the nil slice,
    which is encoded as [null], exactly when the generation returned no
    image; with one image or more it is an array. *)
Theorem ok_response_null_iff_no_images {W : Type} (env : Env W)
    req w ret w' tr :
  run env (handler req) w = (ret, w', tr) ->
  StatusCode ret.1 = 200 ->
  exists urls m pr c genResp,
    ret = okResponse urls
    /\ generations tr = [(m, pr, c, inl genResp)]
    /\ (urls = None <-> GeneratedImages genResp = [])
    /\ length (elems urls) = length (GeneratedImages genResp).
Proof.
  intros Hrun Hst.
  destruct (handler_run_summary env _ _ _ _ _ Hrun)
    as [(-> & _ & Hbad)
       |[(m & pr & c & err & line & -> & ->)
        |[(m & pr & c & genResp & tl & err & -> & Hl & ->)
         |(m & pr & c & genResp & tl & urls & -> & Hl & ->)]]].
  - rewrite Hbad in Hst. discriminate.
  - discriminate.
  - discriminate.
  - exists urls, m, pr, c, genResp. split; [reflexivity|].
    destruct (valid_trace_calls _ _ _ _ _ _ m pr c Hl) as (Hg & _).
    split; [exact Hg|].
    destruct (LoopRun_completed _ _ _ _ _ _ _ _ Hl) as (Hlen & _ & Hurls & Hnil).
    split.
    + rewrite Hnil. split; [intros [_ H]; exact H|auto].
    + rewrite Hurls. simpl. rewrite length_map. exact Hlen.
Qed.

(** X12: under any folder prefix the key is a directory part fixed by the
    prefix, followed by the object name: the name is never rewritten by
    [path.Join], and keys of different turns or stamps differ where their
    names do. *)
Theorem key_is_directory_then_name :
  exists dir, forall idx now, objectKey idx now = dir +:+ objectName idx now.
Proof.
  destruct (joinFacts.Join_dir folderPrefix) as [dir Hdir].
  exists dir. intros idx now. apply Hdir, timeFacts.objectName_plain.
Qed.

End EveryRun.

(** ** Start-up *)

Module startupFacts.

Import startup.

(** X13: the process starts exactly when the AWS configuration loads for
    the region, [OUTPUT_BUCKET] and [API_KEY] are set and not empty, and
    the GenAI client is created for that key. *)
Theorem init_starts_iff (environ : gmap string string) (lib : Libraries) :
  (exists g, (init environ lib).1 = inr g)
  <-> config_LoadDefaultConfig lib
        (if decide (Getenv environ "OUTPUT_BUCKET_REGION" = "")
         then "us-east-1" else Getenv environ "OUTPUT_BUCKET_REGION") = None
      /\ Getenv environ "OUTPUT_BUCKET" <> ""
      /\ Getenv environ "API_KEY" <> ""
      /\ genai_NewClient lib (Getenv environ "API_KEY") = None.
Proof.
  unfold init.
  destruct (config_LoadDefaultConfig lib _) as [e1|];
    [split; [intros [g Hg]; discriminate|intros (H & _); discriminate]|].
  destruct (decide (Getenv environ "OUTPUT_BUCKET" = "")) as [Hb|Hb];
    [split; [intros [g Hg]; discriminate|intros (_ & H & _); contradiction]|].
  destruct (decide (Getenv environ "API_KEY" = "")) as [Hk|Hk];
    [split; [intros [g Hg]; discriminate|intros (_ & _ & H & _); contradiction]|].
  destruct (genai_NewClient lib _) as [e2|];
    [split; [intros [g Hg]; discriminate|intros (_ & _ & _ & H); discriminate]|].
  split; [auto|eauto].
Qed.

(** The package variables of a process that has started. *)
Lemma init_started (environ : gmap string string) (lib : Libraries) (g : Globals) :
  (init environ lib).1 = inr g ->
  g_bucketName g = Getenv environ "OUTPUT_BUCKET" /\ g_bucketName g <> ""
  /\ g_folderPrefix g = Getenv environ "OUTPUT_FOLDER"
  /\ g_region g <> ""
  /\ (environ !! "OUTPUT_BUCKET_REGION" = Some (g_region g)
      \/ Getenv environ "OUTPUT_BUCKET_REGION" = "" /\ g_region g = "us-east-1")
  /\ (init environ lib).2 =
       [LoadDefaultConfig (g_region g); NewFromConfig;
        NewClient (Getenv environ "API_KEY")].
Proof.
  unfold init.
  destruct (config_LoadDefaultConfig lib _) as [e1|]; [discriminate|].
  destruct (decide (Getenv environ "OUTPUT_BUCKET" = "")) as [Hb|Hb]; [discriminate|].
  destruct (decide (Getenv environ "API_KEY" = "")) as [Hk|Hk]; [discriminate|].
  destruct (genai_NewClient lib _) as [e2|]; [discriminate|].
  simpl. intros Hg. injection Hg as <-. simpl.
  split; [reflexivity|]. split; [exact Hb|]. split; [reflexivity|].
  destruct (decide (Getenv environ "OUTPUT_BUCKET_REGION" = "")) as [Hr|Hr].
  - split; [discriminate|]. split; [right; auto|reflexivity].
  - split; [exact Hr|]. split; [left|reflexivity].
    unfold Getenv in *. destruct (environ !! "OUTPUT_BUCKET_REGION"); [reflexivity|].
    contradiction.
Qed.

(** X14: in a process that has started the bucket name is the value of
    [OUTPUT_BUCKET] and is not empty, the folder prefix is the value of
    [OUTPUT_FOLDER] (empty when it is not set), and the region is the
    value of [OUTPUT_BUCKET_REGION], or [us-east-1] when that is not set
    or empty, so it is never empty; the two clients were built for that
    region and for the value of [API_KEY]. *)
Theorem init_globals (environ : gmap string string) (lib : Libraries) (g : Globals) :
  (init environ lib).1 = inr g ->
  g_bucketName g = Getenv environ "OUTPUT_BUCKET" /\ g_bucketName g <> ""
  /\ g_folderPrefix g = Getenv environ "OUTPUT_FOLDER"
  /\ g_region g <> ""
  /\ (environ !! "OUTPUT_BUCKET_REGION" = Some (g_region g)
      \/ Getenv environ "OUTPUT_BUCKET_REGION" = "" /\ g_region g = "us-east-1")
  /\ (init environ lib).2 =
       [LoadDefaultConfig (g_region g); NewFromConfig;
        NewClient (Getenv environ "API_KEY")].
Proof. apply init_started. Qed.

(** X15: when [OUTPUT_BUCKET] or [API_KEY] is not set or is empty the
    process does not start, and [init] ends before it creates the GenAI
    client.  The message is that of the AWS configuration exactly when
    loading it failed (nothing else is then called); otherwise, with the S3
    client built, it is [OUTPUT_BUCKET must be set] exactly when the bucket
    is missing and [API_KEY must be set] when only the key is. *)
Theorem init_fatal_before_genai_client (environ : gmap string string) (lib : Libraries) :
  Getenv environ "OUTPUT_BUCKET" = "" \/ Getenv environ "API_KEY" = "" ->
  let region :=
    if decide (Getenv environ "OUTPUT_BUCKET_REGION" = "")
    then "us-east-1" else Getenv environ "OUTPUT_BUCKET_REGION" in
  init environ lib =
    match config_LoadDefaultConfig lib region with
    | Some err =>
        (inl ("unable to load AWS SDK config: " +:+ err), [LoadDefaultConfig region])
    | None =>
        (inl (if decide (Getenv environ "OUTPUT_BUCKET" = "")
              then "OUTPUT_BUCKET must be set" else "API_KEY must be set"),
         [LoadDefaultConfig region; NewFromConfig])
    end
  /\ Forall (fun call => forall key, call <> NewClient key) (init environ lib).2.
Proof.
  intros Hmissing region. unfold init. fold region.
  destruct (config_LoadDefaultConfig lib region) as [e1|].
  { split; [reflexivity|]. repeat constructor; discriminate. }
  destruct (decide (Getenv environ "OUTPUT_BUCKET" = "")) as [Hb|Hb].
  { split; [reflexivity|]. repeat constructor; discriminate. }
  destruct (decide (Getenv environ "API_KEY" = "")) as [Hk|Hk].
  { split; [reflexivity|]. repeat constructor; discriminate. }
  destruct Hmissing; contradiction.
Qed.

End startupFacts.

(** ** Stamps and key collisions *)

Module stampFacts.

Import path time pathFacts timeFacts nameFacts.

Lemma length_list_ascii_of_string (s : string) :
  length (list_ascii_of_string s) = String.length s.
Proof. induction s as [|c s IH]; simpl; [|rewrite IH]; reflexivity. Qed.

(** Strings split at equal lengths are equal part by part. *)
Lemma append_inj_length (a b x y : string) :
  String.length a = String.length b ->
  a +:+ x = b +:+ y -> a = b /\ x = y.
Proof.
  intros Hlen Heq. apply (f_equal list_ascii_of_string) in Heq.
  rewrite !list_ascii_of_string_app in Heq.
  apply app_inj_1 in Heq as [Ha Hx];
    [|rewrite !length_list_ascii_of_string; exact Hlen].
  split.
  - rewrite <- (string_of_list_ascii_of_string a), Ha.
    apply string_of_list_ascii_of_string.
  - rewrite <- (string_of_list_ascii_of_string x), Hx.
    apply string_of_list_ascii_of_string.
Qed.

Lemma append_inj_tail (a b c : string) : a +:+ c = b +:+ c -> a = b.
Proof.
  intros Heq. apply (f_equal list_ascii_of_string) in Heq.
  rewrite !list_ascii_of_string_app in Heq. apply app_inv_tail in Heq.
  rewrite <- (string_of_list_ascii_of_string a), Heq.
  apply string_of_list_ascii_of_string.
Qed.

Lemma digits_length (n : nat) (s : string) : digits n s = true -> String.length s = n.
Proof.
  unfold digits. intros H. apply andb_true_iff in H as [H _].
  apply Nat.eqb_eq in H. exact H.
Qed.

(** Reading a two-digit or four-digit field back gives the number, by
    running both functions on every value of the range. *)
Lemma decimal_appendInt_2 (x : Z) : 0 <= x <= 99 -> decimal (appendInt x 2) 0 = x.
Proof.
  intros Hx.
  assert (forallb (fun x => decimal (appendInt x 2) 0 =? x) (seqZ 0 100) = true) as Hall
    by (vm_compute; reflexivity).
  rewrite forallb_forall in Hall. apply Z.eqb_eq, Hall.
  apply list_elem_of_In, elem_of_seqZ. lia.
Qed.

Lemma decimal_appendInt_4 (x : Z) : 0 <= x <= 9999 -> decimal (appendInt x 4) 0 = x.
Proof.
  intros Hx.
  assert (forallb (fun x => decimal (appendInt x 4) 0 =? x) (seqZ 0 10000) = true) as Hall
    by (vm_compute; reflexivity).
  rewrite forallb_forall in Hall. apply Z.eqb_eq, Hall.
  apply list_elem_of_In, elem_of_seqZ. lia.
Qed.

Lemma appendInt_2_inj (x y : Z) :
  0 <= x <= 99 -> 0 <= y <= 99 -> appendInt x 2 = appendInt y 2 -> x = y.
Proof.
  intros Hx Hy Heq.
  rewrite <- (decimal_appendInt_2 x Hx), <- (decimal_appendInt_2 y Hy), Heq.
  reflexivity.
Qed.

Lemma appendInt_4_inj (x y : Z) :
  0 <= x <= 9999 -> 0 <= y <= 9999 -> appendInt x 4 = appendInt y 4 -> x = y.
Proof.
  intros Hx Hy Heq.
  rewrite <- (decimal_appendInt_4 x Hx), <- (decimal_appendInt_4 y Hy), Heq.
  reflexivity.
Qed.

(** Civil readings with the same stamp are the same reading. *)
Lemma Format_inj (t t' : Time) :
  civil t -> civil t' ->
  Format_20060102T150405 t = Format_20060102T150405 t' -> t = t'.
Proof.
  intros (Hy & Hm & Hd & Hh & Hmi & Hs) (Hy' & Hm' & Hd' & Hh' & Hmi' & Hs').
  unfold Format_20060102T150405. intros Heq.
  pose proof (fun x H => digits_length 4 _ (appendInt_4 x H)) as L4.
  pose proof (fun x H => digits_length 2 _ (appendInt_2 x H)) as L2.
  apply append_inj_length in Heq as [E1 Heq]; [|rewrite !L4 by lia; reflexivity].
  apply append_inj_length in Heq as [E2 Heq]; [|rewrite !L2 by lia; reflexivity].
  apply append_inj_length in Heq as [E3 Heq]; [|rewrite !L2 by lia; reflexivity].
  apply append_inj_length in Heq as [_ Heq]; [|reflexivity].
  apply append_inj_length in Heq as [E4 Heq]; [|rewrite !L2 by lia; reflexivity].
  apply append_inj_length in Heq as [E5 E6]; [|rewrite !L2 by lia; reflexivity].
  apply appendInt_4_inj in E1; [|lia..].
  apply appendInt_2_inj in E2; [|lia..].
  apply appendInt_2_inj in E3; [|lia..].
  apply appendInt_2_inj in E4; [|lia..].
  apply appendInt_2_inj in E5; [|lia..].
  apply appendInt_2_inj in E6; [|lia..].
  destruct t, t'. simpl in *. congruence.
Qed.

(** The object name tells the turn and the stamp. *)
Lemma objectName_inj_stamp (i j : nat) (t t' : Time) :
  objectName i t = objectName j t' ->
  i = j /\ Format_20060102T150405 t = Format_20060102T150405 t'.
Proof.
  intros Heq. pose proof (objectName_inj _ _ _ _ Heq) as ->.
  split; [reflexivity|].
  unfold objectName in Heq.
  apply (inj (String.append "imagen_")) in Heq.
  apply (inj (String.append (itoa j))) in Heq.
  apply (inj (String.append "_")) in Heq.
  eapply append_inj_tail. exact Heq.
Qed.

(** X16: under one folder prefix, the keys of two uploads (of one request
    or of two) coincide exactly when they have the same turn number and
    their clock readings fall in the same second; any other pair of
    uploads gets different keys. *)
Theorem key_collision_iff (folderPrefix : string) (i j : nat) (t t' : Time) :
  civil t -> civil t' ->
  objectKey folderPrefix i t = objectKey folderPrefix j t' <-> i = j /\ t = t'.
Proof.
  intros Ht Ht'. split; [|intros [-> ->]; reflexivity].
  unfold objectKey. destruct (joinFacts.Join_dir folderPrefix) as [dir Hdir].
  rewrite !Hdir by apply objectName_plain.
  intros Heq. apply (inj (String.append dir)) in Heq.
  apply objectName_inj_stamp in Heq as [-> Hstamp].
  split; [reflexivity|]. apply Format_inj; assumption.
Qed.

End stampFacts.

(** ** The handler of a started process *)

Section Started.

Import startup.

Variable json_Unmarshal : string -> requestPayload -> requestPayload * option error.
Variable json_quote : string -> string.

(** X17: in a process started without [OUTPUT_FOLDER] and without
    [OUTPUT_BUCKET_REGION], every upload goes to the bucket named by
    [OUTPUT_BUCKET] under the bare object name of its turn, and the public
    URL of that object is
    [https://{OUTPUT_BUCKET}.s3.us-east-1.amazonaws.com/imagen_{j}_{stamp}.png]. *)
Theorem started_process_default_urls {W : Type} (env : Env W)
    (environ : gmap string string) (lib : Libraries) (g : Globals)
    req w ret w' tr j p res :
  (init environ lib).1 = inr g ->
  Getenv environ "OUTPUT_BUCKET_REGION" = "" ->
  Getenv environ "OUTPUT_FOLDER" = "" ->
  run env (handlerOf json_Unmarshal json_quote g req) w = (ret, w', tr) ->
  uploads tr !! j = Some (p, res) ->
  exists now,
    clock tr !! j = Some now
    /\ put_Bucket p = Getenv environ "OUTPUT_BUCKET"
    /\ put_Key p = objectName j now
    /\ publicURL (g_bucketName g) (g_region g) (put_Key p) =
         "https://" +:+ Getenv environ "OUTPUT_BUCKET"
           +:+ ".s3.us-east-1.amazonaws.com/" +:+ objectName j now.
Proof.
  intros Hinit Hregion Hfolder Hrun Hj.
  destruct (startupFacts.init_started _ _ _ Hinit) as (Hb & _ & Hf & _ & Hr & _).
  assert (g_region g = "us-east-1") as Hreg.
  { destruct Hr as [Hr|[_ Hr]]; [|exact Hr].
    unfold Getenv in Hregion. rewrite Hr in Hregion. simpl in Hregion.
    destruct (startupFacts.init_started _ _ _ Hinit) as (_ & _ & _ & Hne & _).
    contradiction. }
  rewrite Hfolder in Hf. unfold handlerOf in Hrun.
  assert (exists m pr c genResp tl r,
            tr = EvGenerateImages m pr c (inl genResp) :: tl
            /\ LoopRun (g_bucketName g) (g_folderPrefix g) (g_region g)
                 0 (GeneratedImages genResp) None tl r)
    as (m & pr & c & genResp & tl & r & -> & Hloop).
  { destruct (handler_run_summary _ _ _ _ _ env _ _ _ _ _ Hrun)
      as [(-> & _)
         |[(m & pr & c & err & line & -> & _)
          |[(m & pr & c & genResp & tl & err & -> & Hl & _)
           |(m & pr & c & genResp & tl & urls & -> & Hl & _)]]];
      [discriminate|discriminate| |]; repeat eexists; exact Hl. }
  change (uploads (EvGenerateImages m pr c (inl genResp) :: tl)) with (uploads tl) in Hj.
  change (clock (EvGenerateImages m pr c (inl genResp) :: tl)) with (clock tl).
  destruct (LoopRun_upload_at _ _ _ _ _ _ _ _ Hloop _ _ _ Hj)
    as (img & now & _ & Hnow & ->).
  exists now. split; [exact Hnow|]. split; [exact Hb|].
  assert (objectKey (g_folderPrefix g) j now = objectName j now) as Hkey.
  { unfold objectKey. rewrite Hf.
    apply pathFacts.Join_no_prefix, timeFacts.objectName_plain. }
  simpl. rewrite Hkey. split; [reflexivity|].
  unfold publicURL. rewrite Hreg, Hb. reflexivity.
Qed.

End Started.

(** ** More runs on the concrete deployment *)

Module MoreRuns.

Import Scenario startup.

Local Abbreviation decoded body := (Unmarshal body zeroRequestPayload).1.

(** The body with a count of zero and no aspect ratio is sent on with a
    count of one and the ratio [SQUARE]. *)
Lemma generation_request_defaults_witness :
  let out := run (world (inl two_images) noon)
               (deployed "" (mkRequest body_cat_zero)) [] in
  exists res,
    generations out.2 =
      [("imagen-4.0-generate-preview-06-06", "A cat", mkGenCfg 1 "SQUARE" "", res)].
Proof.
  intros out.
  destruct (generation_request_defaults Unmarshal quote "bucket" "" "us-east-1"
              (world (inl two_images) noon) (mkRequest body_cat_zero)
              (decoded body_cat_zero) [] out.1.1 out.1.2 out.2)
    as (res & Hres).
  - vm_compute. reflexivity.
  - vm_compute. discriminate.
  - vm_compute. reflexivity.
  - exists res. exact Hres.
Defined.

Lemma every_upload_stores_its_image_witness :
  let out := run (world (inl two_images) noon) (deployed "" (mkRequest body_cat))
               [None; Some "AccessDenied"] in
  put_Bucket (uploadOf "bucket" "" 1 (png Byte.x01) noon) = "bucket"
  /\ put_ContentType (uploadOf "bucket" "" 1 (png Byte.x01) noon) = "image/png"
  /\ exists m pr c genResp img,
       generations out.2 = [(m, pr, c, inl genResp)]
       /\ GeneratedImages genResp !! 1%nat = Some img
       /\ put_Body (uploadOf "bucket" "" 1 (png Byte.x01) noon) = ImageBytes (Image img).
Proof.
  intros out.
  apply (every_upload_stores_its_image Unmarshal quote "bucket" "" "us-east-1"
           (world (inl two_images) noon) (mkRequest body_cat)
           [None; Some "AccessDenied"] out.1.1 out.1.2 out.2 1%nat
           (uploadOf "bucket" "" 1 (png Byte.x01) noon) (Some "AccessDenied")).
  - vm_compute. reflexivity.
  - vm_compute. reflexivity.
Defined.

Lemma ok_response_lists_distinct_urls_witness :
  let out := run (world (inl two_images) noon) (deployed "" (mkRequest body_cat)) [] in
  exists urls,
    out.1.1 = okResponse quote urls
    /\ elems urls =
         map (fun u => publicURL "bucket" "us-east-1" (put_Key u.1)) (uploads out.2)
    /\ NoDup (elems urls).
Proof.
  intros out.
  apply (ok_response_lists_distinct_urls Unmarshal quote "bucket" "" "us-east-1"
           (world (inl two_images) noon) (mkRequest body_cat)
           [] out.1.1 out.1.2 out.2).
  - vm_compute. reflexivity.
  - vm_compute. reflexivity.
Defined.

Lemma ok_response_null_iff_no_images_witness :
  let out := run (world (inl no_images) noon) (deployed "" (mkRequest body_cat)) [] in
  exists urls m pr c genResp,
    out.1.1 = okResponse quote urls
    /\ generations out.2 = [(m, pr, c, inl genResp)]
    /\ (urls = None <-> GeneratedImages genResp = [])
    /\ length (elems urls) = length (GeneratedImages genResp).
Proof.
  intros out.
  apply (ok_response_null_iff_no_images Unmarshal quote "bucket" "" "us-east-1"
           (world (inl no_images) noon) (mkRequest body_cat)
           [] out.1.1 out.1.2 out.2).
  - vm_compute. reflexivity.
  - vm_compute. reflexivity.
Defined.

(** With the two required variables alone the process starts in
    [us-east-1] with no folder prefix. *)
Lemma init_globals_witness :
  (init environ_minimal libraries_ok).1 =
    inr {| g_bucketName := "bucket"; g_folderPrefix := ""; g_region := "us-east-1" |}
  /\ (init environ_minimal libraries_ok).2 =
       [LoadDefaultConfig "us-east-1"; NewFromConfig; NewClient "secret"].
Proof.
  assert ((init environ_minimal libraries_ok).1 =
          inr {| g_bucketName := "bucket"; g_folderPrefix := "";
                 g_region := "us-east-1" |}) as Hinit
    by (vm_compute; reflexivity).
  split; [exact Hinit|].
  destruct (startupFacts.init_globals environ_minimal libraries_ok _ Hinit)
    as (_ & _ & _ & _ & _ & Hcalls).
  rewrite Hcalls. vm_compute. reflexivity.
Defined.

Lemma init_fatal_before_genai_client_witness :
  init environ_no_key libraries_ok =
    (inl "API_KEY must be set", [LoadDefaultConfig "us-east-1"; NewFromConfig])
  /\ Forall (fun call => forall key, call <> NewClient key)
       (init environ_no_key libraries_ok).2.
Proof.
  destruct (startupFacts.init_fatal_before_genai_client environ_no_key libraries_ok)
    as [Hinit Hcalls].
  - right. vm_compute. reflexivity.
  - split; [|exact Hcalls]. rewrite Hinit. vm_compute. reflexivity.
Defined.

(** Two uploads of turn 0 in the same second share their key; a second
    later they do not. *)
Lemma key_collision_iff_witness :
  objectKey "generated-images" 0 noon = objectKey "generated-images" 0 noon
  <-> 0%nat = 0%nat /\ noon = noon.
Proof.
  apply (stampFacts.key_collision_iff "generated-images" 0 0 noon noon);
    vm_compute; repeat split; discriminate.
Defined.

Lemma started_process_default_urls_witness :
  let out := run (world (inl two_images) noon)
               (handlerOf Unmarshal quote
                  {| g_bucketName := "bucket"; g_folderPrefix := "";
                     g_region := "us-east-1" |}
                  (mkRequest body_cat)) [] in
  exists now,
    clock out.2 !! 0%nat = Some now
    /\ put_Key (uploadOf "bucket" "" 0 (png Byte.x00) noon) = objectName 0 now.
Proof.
  intros out.
  destruct (started_process_default_urls Unmarshal quote
              (world (inl two_images) noon) environ_minimal libraries_ok
              {| g_bucketName := "bucket"; g_folderPrefix := "";
                 g_region := "us-east-1" |}
              (mkRequest body_cat) [] out.1.1 out.1.2 out.2 0%nat
              (uploadOf "bucket" "" 0 (png Byte.x00) noon) None)
    as (now & Hnow & _ & Hkey & _).
  - vm_compute. reflexivity.
  - vm_compute. reflexivity.
  - vm_compute. reflexivity.
  - vm_compute. reflexivity.
  - vm_compute. reflexivity.
  - exists now. auto.
Defined.

End MoreRuns.

(** ** Outcomes and responses *)

Section Outcomes.

Variable json_Unmarshal : string -> requestPayload -> requestPayload * option error.
Variable json_quote : string -> string.
Variables bucketName folderPrefix region : string.

Local Abbreviation handler :=
  (handler json_Unmarshal json_quote bucketName folderPrefix region).
Local Abbreviation LoopRun := (LoopRun bucketName folderPrefix region).
Local Abbreviation publicURL := (publicURL bucketName region).
Local Abbreviation okResponse := (okResponse json_quote).
Local Abbreviation wellFormed := (wellFormed json_quote).

(** The configuration sent for a payload, written out. *)
Lemma generationConfig_withDefaults (in_ : requestPayload) :
  generationConfig (withDefaults in_) =
    {| cfg_NumberOfImages := Z.max 1 (NumberOfImages in_);
       cfg_AspectRatio :=
         if decide (AspectRatio in_ = "") then "SQUARE" else AspectRatio in_;
       cfg_PersonGeneration := PersonGeneration in_ |}.
Proof.
  rewrite generationConfig_fields.
  destruct (withDefaults_fields in_) as (-> & -> & -> & _). reflexivity.
Qed.

(** The run of a request with a prompt, outcome by outcome: what the trace
    shows of the outcome, and the response that goes with it. *)
Lemma valid_run_response {W : Type} (env : Env W) req in_ w ret w' tr :
  json_Unmarshal (req_Body req) zeroRequestPayload = (in_, None) ->
  Prompt in_ <> "" ->
  run env (handler req) w = (ret, w', tr) ->
  let sent := (imagenModel, Prompt in_, generationConfig (withDefaults in_)) in
  (exists err,
     generations tr = [(sent, inr err)]
     /\ uploads tr = []
     /\ ret = serverError ("image generation failed: " +:+ err))
  \/ (exists genResp i p err,
        generations tr = [(sent, inl genResp)]
        /\ uploads tr !! i = Some (p, Some err)
        /\ ret = serverError ("failed to upload image: " +:+ err))
  \/ (exists genResp urls,
        generations tr = [(sent, inl genResp)]
        /\ Forall (fun u => u.2 = None) (uploads tr)
        /\ elems urls = map (fun u => publicURL (put_Key u.1)) (uploads tr)
        /\ ret = okResponse urls).
Proof.
  intros Hdec Hprompt Hrun sent.
  destruct (handler_run_outcomes _ _ _ _ _ env _ _ _ _ _ _ Hdec Hprompt Hrun)
    as [(err & -> & ->)|[(genResp & tl & early & -> & Hloop & ->)
                        |(genResp & tl & urls & -> & Hloop & ->)]].
  - left. exists err. repeat split.
  - right. left.
    destruct (valid_trace_calls _ _ _ _ _ _ imagenModel (Prompt in_)
                (generationConfig (withDefaults in_)) Hloop) as (Hg & Hu & _).
    destruct (LoopRun_aborted _ _ _ _ _ _ _ _ Hloop) as (pre & p & err & line & Htl & _ & ->).
    exists genResp, (length (uploads pre)), p, err.
    split; [exact Hg|]. split; [|reflexivity].
    rewrite Hu, Htl, uploads_app. apply list_lookup_middle. reflexivity.
  - right. right.
    destruct (valid_trace_calls _ _ _ _ _ _ imagenModel (Prompt in_)
                (generationConfig (withDefaults in_)) Hloop) as (Hg & Hu & _).
    destruct (LoopRun_completed _ _ _ _ _ _ _ _ Hloop) as (_ & Hok & Hurls & _).
    exists genResp, urls. rewrite Hu. auto.
Qed.


(** C5, amended: when the body decodes, a payload whose [numberOfImages]
    is zero or negative yields the very program that the same payload with
    [numberOfImages = 1] yields, so in every world the two requests get the
    same response, make the same calls and leave the same state.  The
    count is coerced to 1 and raises no error: with a prompt, the run
    calls the GenAI client once with a count of 1 and does not answer 400;
    and whenever the answer is 400, it is the one for the missing prompt. *)
Theorem nonpositive_count_behaves_as_one req req' in_ :
  json_Unmarshal (req_Body req) zeroRequestPayload = (in_, None) ->
  NumberOfImages in_ <= 0 ->
  json_Unmarshal (req_Body req') zeroRequestPayload = (set_NumberOfImages 1 in_, None) ->
  handler req = handler req'
  /\ (forall (W : Type) (env : Env W) (w : W),
        run env (handler req) w = run env (handler req') w)
  /\ (forall (W : Type) (env : Env W) (w : W),
        let out := run env (handler req) w in
        (Prompt in_ <> "" ->
         (exists res,
            generations out.2 =
              [("imagen-4.0-generate-preview-06-06", Prompt in_,
                {| cfg_NumberOfImages := 1;
                   cfg_AspectRatio :=
                     if decide (AspectRatio in_ = "") then "SQUARE" else AspectRatio in_;
                   cfg_PersonGeneration := PersonGeneration in_ |},
                res)])
         /\ StatusCode out.1.1.1 <> 400)
        /\ (StatusCode out.1.1.1 = 400 ->
            Prompt in_ = "" /\ Body out.1.1.1 = "prompt is required")).
Proof.
  intros Hdec Hn Hdec'.
  assert (handler req = handler req') as Heq.
  { unfold handler. rewrite Hdec, Hdec'.
    change (Prompt (set_NumberOfImages 1 in_)) with (Prompt in_).
    destruct (decide (Prompt in_ = "")); [reflexivity|].
    rewrite (withDefaults_coerced _ Hn). reflexivity. }
  split; [exact Heq|]. split; [intros W env w; rewrite Heq; reflexivity|].
  intros W env w out. subst out.
  destruct (run env (handler req) w) as [[ret w'] tr] eqn:Hrun. cbn [fst snd].
  assert (Prompt in_ <> "" ->
          (exists res,
             generations tr =
               [("imagen-4.0-generate-preview-06-06", Prompt in_,
                 {| cfg_NumberOfImages := 1;
                    cfg_AspectRatio :=
                      if decide (AspectRatio in_ = "") then "SQUARE" else AspectRatio in_;
                    cfg_PersonGeneration := PersonGeneration in_ |},
                 res)])
          /\ StatusCode ret.1 <> 400) as Hvalid.
  { intros Hp.
    pose proof (generationConfig_withDefaults in_) as Hcfg.
    replace (Z.max 1 (NumberOfImages in_)) with 1 in Hcfg by lia.
    destruct (valid_run_response env _ _ _ _ _ _ Hdec Hp Hrun)
      as [(err & Hg & _ & ->)
         |[(genResp & i & p & err & Hg & _ & ->)
          |(genResp & urls & Hg & _ & _ & ->)]];
      rewrite Hcfg in Hg; (split; [eexists; exact Hg|simpl; discriminate]). }
  split; [exact Hvalid|].
  intros Hst. destruct (decide (Prompt in_ = "")) as [Hp|Hp].
  - split; [exact Hp|].
    unfold handler in Hrun. rewrite Hdec in Hrun.
    destruct (decide (Prompt in_ = "")) as [_|]; [|contradiction].
    simpl in Hrun. injection Hrun as <- <- <-. reflexivity.
  - destruct (Hvalid Hp) as [_ Hne]. contradiction.
Qed.

End Outcomes.

Module OutcomeRuns.

Import Scenario.

Local Abbreviation decoded body := (Unmarshal body zeroRequestPayload).1.

Lemma nonpositive_count_behaves_as_one_witness :
  deployed "" (mkRequest body_cat_zero) = deployed "" (mkRequest body_cat_one)
  /\ (let out := run (world (inl two_images) noon)
                   (deployed "" (mkRequest body_cat_zero)) [] in
      (exists res,
         generations out.2 =
           [("imagen-4.0-generate-preview-06-06", "A cat",
             mkGenCfg 1 "SQUARE" "", res)])
      /\ StatusCode out.1.1.1 <> 400).
Proof.
  destruct (nonpositive_count_behaves_as_one Unmarshal quote "bucket" "" "us-east-1"
              (mkRequest body_cat_zero) (mkRequest body_cat_one)
              (decoded body_cat_zero))
    as (Hprog & _ & Hruns).
  - vm_compute. reflexivity.
  - vm_compute. discriminate.
  - vm_compute. reflexivity.
  - split; [exact Hprog|].
    destruct (Hruns _ (world (inl two_images) noon) []) as [Hvalid _].
    apply Hvalid. vm_compute. discriminate.
Defined.

(** C5 as claimed fails below the field's type: the body with the count
    -2147483649 is negative, the decoder answers with an error, and the
    handler answers 400 without any call, where the same body with the
    count 1 is answered 200 after a generation call for one image. *)
Lemma count_below_int32_is_rejected :
  let run_of body :=
    run (world (inl two_images) noon)
      (handler Unmarshal_int32 quote "bucket" "" "us-east-1" (mkRequest body)) [] in
  -2147483649 < 0
  /\ fits_int32 (-2147483649) = false
  /\ StatusCode (run_of body_cat_below_int32).1.1.1 = 400
  /\ (run_of body_cat_below_int32).2 = []
  /\ StatusCode (run_of body_cat_one).1.1.1 = 200
  /\ generations (run_of body_cat_one).2 =
       [("imagen-4.0-generate-preview-06-06", "A cat", mkGenCfg 1 "SQUARE" "",
         inl two_images)]
  /\ run_of body_cat_below_int32 <> run_of body_cat_one.
Proof.
  intros run_of.
  split; [reflexivity|]. split; [reflexivity|].
  split; [vm_compute; reflexivity|]. split; [vm_compute; reflexivity|].
  split; [vm_compute; reflexivity|]. split; [vm_compute; reflexivity|].
  intros Heq. apply (f_equal snd) in Heq. vm_compute in Heq. discriminate.
Qed.

End OutcomeRuns.
